(** * Sample DSP filter plugin: a shallow embedding of
      [crates/plugins/examples/sample_dsp_plugin.c]

    The C file implements the four entry points of the plugin ABI
    ([plugin_create], [plugin_process], [plugin_destroy],
    [plugin_get_info]) around a one-pole low-pass filter.

    Modelling choices, all taken from the C text:
    - [float] is IEEE 754 binary32 and [double] is binary64, both given by
      the executable specification [SpecFloat] of the Standard Library
      (round to nearest, ties to even);
    - [uint64_t] is a [Z] reduced modulo [2^64] at every increment;
    - pointers are numbers, [0] being [NULL]; the heap of [PluginState]
      blocks and the caller's [float] cells are two finite maps, so that the
      output pointer never points into an instance (the host sees the
      instance as an opaque handle);
    - [malloc] and [free] are a free-list allocator: [malloc] fails exactly
      when the list is empty and hands out a block with whatever content it
      last had;
    - every entry point is a computation in a state-and-failure monad, where
      failure stands for undefined behaviour (a dereference of a dangling
      pointer, an invalid [free]).

    The file has three parts: the definitions; bounds on the results of the
    [SpecFloat] operations, read through the real value of a float; the
    properties of the plug-in, numbered C1 to C10 as in the specification. *)

From Stdlib Require Import ZArith Lia Bool List String Reals Lra.
From Stdlib Require Import Floats.SpecFloat.
From stdpp Require Import base option gmap.

Open Scope Z_scope.

(** ** Floating-point formats *)

Module F32.
Definition prec : Z := 24.
Definition emax : Z := 128.

Definition add := SFadd prec emax.
Definition sub := SFsub prec emax.
Definition mul := SFmul prec emax.
Definition div := SFdiv prec emax.
Definition ltb := SFltb.
Definition leb := SFleb.
Definition eqb := SFeqb.
Definition valid := valid_binary prec emax.

(** An integer literal with suffix [f], such as [50.0f]. *)
Definition of_Z (n : Z) : spec_float := binary_normalize prec emax n 0 false.

Definition zero : spec_float := S754_zero false.
Definition one : spec_float := Eval cbv in of_Z 1.

Definition is_nan (x : spec_float) : bool :=
  match x with S754_nan => true | _ => false end.
Definition is_finite (x : spec_float) : bool :=
  match x with S754_zero _ | S754_finite _ _ _ => true | _ => false end.
Definition is_zero (x : spec_float) : bool :=
  match x with S754_zero _ => true | _ => false end.
End F32.

Module F64.
Definition prec : Z := 53.
Definition emax : Z := 1024.

Definition mul := SFmul prec emax.
Definition div := SFdiv prec emax.
Definition valid := valid_binary prec emax.

(** The usual arithmetic conversion [float] to [double]; it is exact. *)
Definition of_f32 (x : spec_float) : spec_float :=
  match x with
  | S754_finite s m e => binary_round prec emax s m e
  | _ => x
  end.

(** The conversion [double] to [float] of an initialisation
    [float rc = <double expression>]; it rounds. *)
Definition to_f32 (x : spec_float) : spec_float :=
  match x with
  | S754_finite s m e => binary_round F32.prec F32.emax s m e
  | _ => x
  end.
End F64.

(** [M_PI] of <math.h>, [3.14159265358979323846] read as a [double]:
    the bit pattern [0x400921FB54442D18]. *)
Definition M_PI : spec_float := S754_finite false 7074237752028440 (-51).

(** ** The data of the C file *)

Definition PLUGIN_ABI_VERSION : Z := 1.

Record PluginState := mkPluginState {
  cutoff_freq : spec_float;
  sample_rate : spec_float;
  previous_output : spec_float;
  frame_count : Z
}.

Record PluginInfo := mkPluginInfo {
  name : string;
  version : string;
  author : string;
  description : string;
  abi_version : Z
}.

(** [uint64_t] arithmetic: [x++] on an unsigned 64-bit field. *)
Definition UINT64_MOD : Z := 2 ^ 64.
Definition uint64_incr (x : Z) : Z := (x + 1) mod UINT64_MOD.

(** ** Memory *)

Definition ptr := N.
Definition NULL : ptr := 0%N.

(** [!p] of C on a pointer. *)
Definition is_null (p : ptr) : bool := N.eqb p 0.

Record Mem := mkMem {
  heap : gmap positive PluginState;      (* live [PluginState] blocks *)
  cells : gmap positive spec_float;      (* [float] objects of the caller *)
  pool : list (positive * PluginState)   (* blocks [malloc] can still return *)
}.

(** ** A state-and-failure monad over [Mem] *)

Definition M (A : Type) : Type := Mem -> option (A * Mem).

Definition ret {A} (a : A) : M A := fun m => Some (a, m).
Definition bind {A B} (c : M A) (k : A -> M B) : M B :=
  fun m => match c m with
           | Some (a, m') => k a m'
           | None => None
           end.

Declare Scope cmd_scope.
Delimit Scope cmd_scope with cmd.
Notation "'do' x <- c ; k" := (bind c (fun x => k))
  (at level 10, x name, c at level 100, k at level 200) : cmd_scope.
Notation "'run' c ; k" := (bind c (fun _ => k))
  (at level 10, c at level 100, k at level 200) : cmd_scope.
Open Scope cmd_scope.

(** [malloc(sizeof(PluginState))]: the head of the free list, content
    untouched, or [NULL] when the list is empty. *)
Definition malloc : M ptr := fun m =>
  match pool m with
  | [] => Some (NULL, m)
  | (a, junk) :: rest =>
      Some (Npos a, mkMem (<[a := junk]> (heap m)) (cells m) rest)
  end.

(** [free(p)] for a non-null [p]: undefined unless [p] is a live block. *)
Definition free (p : ptr) : M unit := fun m =>
  match p with
  | N0 => Some (tt, m)
  | Npos a =>
      match heap m !! a with
      | Some st => Some (tt, mkMem (delete a (heap m)) (cells m) ((a, st) :: pool m))
      | None => None
      end
  end.

(** [state->field] as an rvalue. *)
Definition load {A} (p : ptr) (field : PluginState -> A) : M A := fun m =>
  match p with
  | N0 => None
  | Npos a => match heap m !! a with
              | Some st => Some (field st, m)
              | None => None
              end
  end.

(** [state->field = v], given as the update of the record. *)
Definition store (p : ptr) (upd : PluginState -> PluginState) : M unit := fun m =>
  match p with
  | N0 => None
  | Npos a => match heap m !! a with
              | Some st => Some (tt, mkMem (<[a := upd st]> (heap m)) (cells m) (pool m))
              | None => None
              end
  end.

(** [*q = v] for a [float* q]. *)
Definition store_float (q : ptr) (v : spec_float) : M unit := fun m =>
  match q with
  | N0 => None
  | Npos a => match cells m !! a with
              | Some _ => Some (tt, mkMem (heap m) (<[a := v]> (cells m)) (pool m))
              | None => None
              end
  end.

Definition set_cutoff_freq (v : spec_float) (st : PluginState) : PluginState :=
  mkPluginState v (sample_rate st) (previous_output st) (frame_count st).
Definition set_sample_rate (v : spec_float) (st : PluginState) : PluginState :=
  mkPluginState (cutoff_freq st) v (previous_output st) (frame_count st).
Definition set_previous_output (v : spec_float) (st : PluginState) : PluginState :=
  mkPluginState (cutoff_freq st) (sample_rate st) v (frame_count st).
Definition set_frame_count (v : Z) (st : PluginState) : PluginState :=
  mkPluginState (cutoff_freq st) (sample_rate st) (previous_output st) v.

(** ** The four entry points *)

Definition plugin_create (config : option (list Byte.byte)) (config_len : N) : M ptr :=
  do state <- malloc;
  if is_null state then ret NULL else
  run store state (set_cutoff_freq (F32.of_Z 50));
  run store state (set_sample_rate (F32.of_Z 1000));
  run store state (set_previous_output F32.zero);
  run store state (set_frame_count 0);
  ret state.

(** The initialisers of the three locals of [plugin_process].  In
    [1.0f / (2.0f * M_PI * state->cutoff_freq)] the constant [M_PI] is a
    [double], so the product and the quotient are computed in binary64 and
    the result is rounded once more when it is stored in the [float rc]. *)
Definition rc_of (c : spec_float) : spec_float :=
  F64.to_f32
    (F64.div (F64.of_f32 F32.one)
       (F64.mul (F64.mul (F64.of_f32 (F32.of_Z 2)) M_PI) (F64.of_f32 c))).

Definition alpha_of (rc dt : spec_float) : spec_float :=
  F32.div dt (F32.add rc dt).

Definition output_of (alpha ffb_in p : spec_float) : spec_float :=
  F32.add (F32.mul alpha ffb_in) (F32.mul (F32.sub F32.one alpha) p).

Definition plugin_process (state_ptr : ptr)
    (ffb_in wheel_speed wheel_angle dt : spec_float) (ffb_out : ptr) : M Z :=
  let state := state_ptr in
  if is_null state || is_null ffb_out then ret (-1) else
  do c <- load state cutoff_freq;
  let rc := rc_of c in
  let alpha := alpha_of rc dt in
  do p <- load state previous_output;
  let output := output_of alpha ffb_in p in
  run store state (set_previous_output output);
  run store_float ffb_out output;
  do n <- load state frame_count;
  run store state (set_frame_count (uint64_incr n));
  ret 0.

Definition plugin_destroy (state : ptr) : M unit :=
  if negb (is_null state) then free state else ret tt.

Definition plugin_get_info : M PluginInfo :=
  let info := {| name := "Sample DSP Filter";
                 version := "1.0.0";
                 author := "Racing Wheel Suite";
                 description := "Simple low-pass filter for force feedback";
                 abi_version := PLUGIN_ABI_VERSION |} in
  ret info.

Record PluginVTable := mkPluginVTable {
  create : option (list Byte.byte) -> N -> M ptr;
  process : ptr -> spec_float -> spec_float -> spec_float -> spec_float -> ptr -> M Z;
  destroy : ptr -> M unit;
  get_info : M PluginInfo
}.

Definition get_plugin_vtable : PluginVTable :=
  {| create := plugin_create;
     process := plugin_process;
     destroy := plugin_destroy;
     get_info := plugin_get_info |}.

(** ** A host driving the plugin

    The host calls [process] once per tick, in order.  A [Call] is the
    argument list of one such call; [run_calls] performs them in sequence
    and collects the statuses. *)

Record Call := mkCall {
  c_state : ptr;
  c_ffb_in : spec_float;
  c_wheel_speed : spec_float;
  c_wheel_angle : spec_float;
  c_dt : spec_float;
  c_out : ptr
}.

Definition do_call (c : Call) : M Z :=
  plugin_process (c_state c) (c_ffb_in c) (c_wheel_speed c) (c_wheel_angle c)
    (c_dt c) (c_out c).

Fixpoint run_calls (cs : list Call) : M (list Z) :=
  match cs with
  | [] => ret []
  | c :: cs' =>
      do s <- do_call c;
      do ss <- run_calls cs';
      ret (s :: ss)
  end.

(** A non-null pointer argument is meaningful only if it designates a live
    object: a block of the heap, a cell of the caller. *)
Definition is_live (m : Mem) (p : ptr) : bool :=
  match p with
  | N0 => false
  | Npos a => match heap m !! a with Some _ => true | None => false end
  end.

Definition is_cell (m : Mem) (q : ptr) : bool :=
  match q with
  | N0 => false
  | Npos a => match cells m !! a with Some _ => true | None => false end
  end.

Definition call_ok (m : Mem) (c : Call) : bool :=
  is_null (c_state c) || is_null (c_out c)
  || (is_live m (c_state c) && is_cell m (c_out c)).

(** The number of calls of [cs] on the instance [p] that returned status 0. *)
Fixpoint successes (p : ptr) (cs : list Call) (ss : list Z) : Z :=
  match cs, ss with
  | c :: cs', s :: ss' =>
      (if N.eqb (c_state c) p && Z.eqb s 0 then 1 else 0) + successes p cs' ss'
  | _, _ => 0
  end.

(** The state written by [plugin_create]. *)
Definition default_state : PluginState :=
  mkPluginState (F32.of_Z 50) (F32.of_Z 1000) F32.zero 0.

(** The instance state after a successful [plugin_process]. *)
Definition step_state (st : PluginState) (ffb_in dt : spec_float) : PluginState :=
  let y := output_of (alpha_of (rc_of (cutoff_freq st)) dt) ffb_in (previous_output st) in
  mkPluginState (cutoff_freq st) (sample_rate st) y (uint64_incr (frame_count st)).

(** ** Concrete memories used to exercise the statements *)

(** One free block holding garbage and one [float] cell of the caller. *)
Definition mem_fresh : Mem :=
  mkMem ∅ {[ 1%positive := S754_nan ]}
        [(7%positive, mkPluginState S754_nan S754_nan S754_nan 99)].

(** The same memory after a successful [plugin_create]. *)
Definition mem_live : Mem :=
  mkMem {[ 7%positive := default_state ]} {[ 1%positive := S754_nan ]} [].

(** [0.001f], a one-millisecond tick. *)
Definition dt_1ms : spec_float := S754_finite false 8589935 (-33).

(** ** The real value of a float (specification only)

    [F2R m e] is the real number [m * 2^e]; the order of floats is read
    through it in the lemmas on rounding below. *)

Definition bpow (e : Z) : R := powerRZ 2 e.
Definition F2R (m e : Z) : R := (IZR m * bpow e)%R.

(** [shr_rel n r r']: the record [r'] is [r] shifted right by [n] bits, and
    it is exact as soon as [r] was and no set bit was shifted out. *)
Definition shr_rel (n : Z) (r r' : shr_record) : Prop :=
  0 <= shr_m r ->
  shr_m r' = shr_m r / 2 ^ n
  /\ (loc_of_shr_record r = loc_Exact -> shr_m r = shr_m r' * 2 ^ n ->
      loc_of_shr_record r' = loc_Exact).

(** The last step of [binary_round_aux]: from the final mantissa and
    exponent to the float. *)
Definition finish (prec emax : Z) (sx : bool) (m e : Z) : spec_float :=
  match m with
  | Z0 => S754_zero sx
  | Zpos p => if Z.leb e (emax - prec) then S754_finite sx p e else S754_infinity sx
  | Zneg _ => S754_nan
  end.

(** Two constants of [plugin_process] once evaluated: [2.0f * M_PI] and
    [1.0f], both as [double]. *)
Definition TWO_PI : spec_float := S754_finite false 7074237752028440 (-50).
Definition ONE64 : spec_float := S754_finite false 4503599627370496 (-52).

(** The three shapes of a non-negative, non-NaN binary32 value. *)
Definition nonneg32 (x : spec_float) : Prop :=
  (exists s, x = S754_zero s)
  \/ x = S754_infinity false
  \/ exists m e, x = S754_finite false m e /\ bounded F32.prec F32.emax m e = true.

(** ** Notions used by the further properties *)

(** Two floats with the same value: identical, or two zeros whatever their
    signs (C's [==] on numbers, with NaN related to NaN). *)
Definition same_value (x y : spec_float) : Prop :=
  x = y \/ (F32.is_zero x = true /\ F32.is_zero y = true).

(** Every [float] field is a binary32 number and the counter is in the range
    of [uint64_t]. *)
Definition state_valid (st : PluginState) : Prop :=
  F32.valid (cutoff_freq st) = true
  /\ F32.valid (sample_rate st) = true
  /\ F32.valid (previous_output st) = true
  /\ 0 <= frame_count st < UINT64_MOD.

(** The two [float] arguments of a call that [plugin_process] reads. *)
Definition call_valid (c : Call) : bool :=
  F32.valid (c_ffb_in c) && F32.valid (c_dt c).

(** A call whose handle is the instance [a] or [NULL]. *)
Definition on_instance (a : positive) (c : Call) : bool :=
  N.eqb (c_state c) (Npos a) || is_null (c_state c).

(** A call whose output pointer is [NULL] or a cell of [m]. *)
Definition out_ok (m : Mem) (c : Call) : bool :=
  is_null (c_out c) || is_cell m (c_out c).

(** The instance state with its filter memory negated. *)
Definition negate_state (st : PluginState) : PluginState :=
  set_previous_output (SFopp (previous_output st)) st.

(** A memory with two live instances and two cells. *)
Definition mem_two : Mem :=
  mkMem {[ 7%positive := default_state; 9%positive := default_state ]}
        {[ 1%positive := S754_nan; 2%positive := S754_nan ]} [].

(** A call without input during a finite positive tick. *)
Definition quiet_call (c : Call) : bool :=
  F32.is_zero (c_ffb_in c) && F32.valid (c_dt c)
  && F32.ltb F32.zero (c_dt c) && F32.is_finite (c_dt c).

(** A binary32 value that is a zero or a positive number not above the real
    number [u]. *)
Definition below32 (u : R) (y : spec_float) : Prop :=
  (exists s, y = S754_zero s)
  \/ exists m e, y = S754_finite false m e
                 /\ bounded F32.prec F32.emax m e = true
                 /\ (F2R (Zpos m) e <= u)%R.

(** The real value of a non-negative finite float. *)
Definition value32 (x : spec_float) : R :=
  match x with
  | S754_finite false m e => F2R (Zpos m) e
  | _ => 0%R
  end.

(** * Rounding in [SpecFloat]: bounds on the results *)

Lemma bpow_pos e : (0 < bpow e)%R.
Proof. apply powerRZ_lt. lra. Qed.

Lemma bpow_add a b : bpow (a + b) = (bpow a * bpow b)%R.
Proof. apply powerRZ_add. lra. Qed.

Lemma bpow_0 : bpow 0 = 1%R.
Proof. reflexivity. Qed.

Lemma IZR_pow2 n : 0 <= n -> IZR (2 ^ n) = bpow n.
Proof.
  intros H. rewrite <- (Z2Nat.id n H). unfold bpow.
  rewrite <- pow_powerRZ, <- pow_IZR. reflexivity.
Qed.

Lemma bpow_1 : bpow 1 = 2%R.
Proof. rewrite <- IZR_pow2 by lia. reflexivity. Qed.

Lemma bpow_ge_1 n : 0 <= n -> (1 <= bpow n)%R.
Proof.
  intros H. rewrite <- IZR_pow2 by assumption. apply IZR_le.
  pose proof (Z.pow_pos_nonneg 2 n). lia.
Qed.

Lemma bpow_le a b : a <= b -> (bpow a <= bpow b)%R.
Proof.
  intros H. replace b with (a + (b - a)) by lia. rewrite bpow_add.
  pose proof (bpow_pos a). pose proof (bpow_ge_1 (b - a) ltac:(lia)). nra.
Qed.

Lemma bpow_lt a b : a < b -> (bpow a < bpow b)%R.
Proof.
  intros H. replace b with (a + 1 + (b - a - 1)) by lia.
  rewrite !bpow_add, bpow_1.
  pose proof (bpow_pos a). pose proof (bpow_ge_1 (b - a - 1) ltac:(lia)). nra.
Qed.

Lemma bpow_lt_inv a b : (bpow a < bpow b)%R -> a < b.
Proof.
  intros H. destruct (Z_lt_le_dec a b) as [|Hle]; [assumption|].
  apply bpow_le in Hle. lra.
Qed.

(** Number of binary digits *)

Lemma digits2_pos_size p : digits2_pos p = Pos.size p.
Proof. induction p as [p IH|p IH|]; cbn; congruence. Qed.

Lemma Zdigits2_log2 m : 0 < m -> Zdigits2 m = Z.log2 m + 1.
Proof.
  destruct m as [|p|p]; try lia. intros _.
  destruct p as [p|p|]; cbn; rewrite ?digits2_pos_size; lia.
Qed.

Lemma Zdigits2_bounds m :
  0 < m -> 2 ^ (Zdigits2 m - 1) <= m < 2 ^ Zdigits2 m.
Proof.
  intros H. rewrite Zdigits2_log2 by assumption.
  replace (Z.log2 m + 1 - 1) with (Z.log2 m) by lia.
  pose proof (Z.log2_spec m H). lia.
Qed.

Lemma Zdigits2_pos m : 0 < m -> 0 < Zdigits2 m.
Proof. intros H. rewrite Zdigits2_log2 by assumption. pose proof (Z.log2_nonneg m). lia. Qed.

Lemma Zdigits2_mono a b : 0 < a <= b -> Zdigits2 a <= Zdigits2 b.
Proof.
  intros H. rewrite !Zdigits2_log2 by lia.
  pose proof (Z.log2_le_mono a b). lia.
Qed.

Lemma Zdigits2_bounds_R m :
  0 < m -> (bpow (Zdigits2 m - 1) <= IZR m < bpow (Zdigits2 m))%R.
Proof.
  intros H. pose proof (Zdigits2_bounds m H) as [H1 H2].
  pose proof (Zdigits2_pos m H).
  rewrite <- !IZR_pow2 by lia. split; [apply IZR_le | apply IZR_lt]; assumption.
Qed.

(** Magnitude of [m * 2^e] *)
Lemma F2R_bounds m e :
  0 < m -> (bpow (Zdigits2 m + e - 1) <= F2R m e < bpow (Zdigits2 m + e))%R.
Proof.
  intros H. pose proof (Zdigits2_bounds_R m H) as [H1 H2].
  unfold F2R. replace (Zdigits2 m + e - 1) with (Zdigits2 m - 1 + e) by lia.
  rewrite !bpow_add. pose proof (bpow_pos e). split; nra.
Qed.

Lemma Zdigits2_div_pow2 m n :
  0 <= n -> 2 ^ n <= m -> Zdigits2 (m / 2 ^ n) = Zdigits2 m - n.
Proof.
  intros Hn Hm. assert (0 < 2 ^ n) by (apply Z.pow_pos_nonneg; lia).
  assert (0 < m) by lia.
  assert (0 < m / 2 ^ n) by (apply Z.div_str_pos; lia).
  rewrite !Zdigits2_log2 by assumption.
  rewrite <- Z.shiftr_div_pow2 by assumption.
  rewrite Z.log2_shiftr by assumption.
  pose proof (Z.log2_le_mono (2 ^ n) m ltac:(lia)) as Hl.
  rewrite Z.log2_pow2 in Hl by assumption. lia.
Qed.

(** ** Right shifts *)

Lemma shr_1_rel r : shr_rel 1 r (shr_1 r).
Proof.
  destruct r as [m r s]. unfold shr_rel. cbn [shr_m]. intros Hm.
  change (2 ^ 1) with 2.
  destruct m as [|[p|p|]|p]; try lia; cbn [shr_1 shr_m].
  - split; [reflexivity|]. destruct r, s; cbn; congruence.
  - split; [rewrite Pos2Z.inj_xI; apply Z.div_unique with 1; lia|].
    intros _ H. lia.
  - split; [rewrite Pos2Z.inj_xO; apply Z.div_unique with 0; lia|].
    destruct r, s; cbn; congruence.
  - split; [reflexivity|]. intros _ H. lia.
Qed.

Lemma shr_rel_trans a b r r' r'' :
  0 <= a -> 0 <= b ->
  shr_rel a r r' -> shr_rel b r' r'' -> shr_rel (a + b) r r''.
Proof.
  intros Ha Hb H1 H2 Hm.
  assert (Pa : 0 < 2 ^ a) by (apply Z.pow_pos_nonneg; lia).
  assert (Pb : 0 < 2 ^ b) by (apply Z.pow_pos_nonneg; lia).
  destruct (H1 Hm) as [E1 X1].
  assert (Hm' : 0 <= shr_m r') by (rewrite E1; apply Z.div_pos; lia).
  destruct (H2 Hm') as [E2 X2].
  rewrite Z.pow_add_r by assumption.
  split.
  - rewrite E2, E1. apply Z.div_div; lia.
  - intros Hl Hd.
    assert (Hr' : shr_m r' = shr_m r'' * 2 ^ b).
    { rewrite E1, Hd.
      replace (shr_m r'' * (2 ^ a * 2 ^ b)) with (shr_m r'' * 2 ^ b * 2 ^ a) by ring.
      apply Z.div_mul. lia. }
    apply X2; [|exact Hr']. apply X1; [exact Hl|]. rewrite Hr', Hd. ring.
Qed.

Lemma iter_pos_shr_rel p r : shr_rel (Zpos p) r (SpecFloat.iter_pos shr_1 p r).
Proof.
  revert r. induction p as [p IH|p IH|]; intros r; cbn [SpecFloat.iter_pos].
  - replace (Zpos p~1) with (1 + (Zpos p + Zpos p)) by lia.
    apply shr_rel_trans with (shr_1 r); [lia|lia|apply shr_1_rel|].
    eapply shr_rel_trans; [lia|lia|apply IH|apply IH].
  - replace (Zpos p~0) with (Zpos p + Zpos p) by lia.
    eapply shr_rel_trans; [lia|lia|apply IH|apply IH].
  - apply shr_1_rel.
Qed.

Lemma shr_m_of_loc m l : shr_m (shr_record_of_loc m l) = m.
Proof. destruct l as [|[]]; reflexivity. Qed.

Lemma loc_of_shr_record_of_loc m l :
  loc_of_shr_record (shr_record_of_loc m l) = l.
Proof. destruct l as [|[]]; reflexivity. Qed.

Section Rounding.
Variables prec emax : Z.
Hypothesis prec_gt_0 : 0 < prec.
Hypothesis prec_lt_emax : prec < emax.


Lemma fexp_mono a b : a <= b -> fexp prec emax a <= fexp prec emax b.
Proof. unfold SpecFloat.fexp. lia. Qed.

Lemma fexp_ge_emin a : emin prec emax <= fexp prec emax a.
Proof. unfold SpecFloat.fexp. lia. Qed.

(** [shr_fexp] cuts [m * 2^e] down to the exponent the format gives to its
    magnitude, when that exponent is above [e]. *)
Lemma shr_fexp_spec m e l :
  0 <= m ->
  let E := Z.max e (fexp prec emax (Zdigits2 m + e)) in
  exists mrs,
    shr_fexp prec emax m e l = (mrs, E)
    /\ shr_m mrs = m / 2 ^ (E - e)
    /\ (l = loc_Exact -> m = shr_m mrs * 2 ^ (E - e) ->
        loc_of_shr_record mrs = loc_Exact).
Proof.
  intros Hm E. unfold shr_fexp, shr.
  destruct (fexp prec emax (Zdigits2 m + e) - e) as [|p|p] eqn:Hn.
  - exists (shr_record_of_loc m l). replace E with e by lia.
    rewrite Z.sub_diag, shr_m_of_loc, loc_of_shr_record_of_loc.
    change (2 ^ 0) with 1. rewrite Z.div_1_r. auto.
  - exists (SpecFloat.iter_pos shr_1 p (shr_record_of_loc m l)).
    replace E with (e + Zpos p) by lia. replace (e + Zpos p - e) with (Zpos p) by lia.
    pose proof (iter_pos_shr_rel p (shr_record_of_loc m l)) as H.
    unfold shr_rel in H. rewrite shr_m_of_loc, loc_of_shr_record_of_loc in H.
    destruct (H Hm) as [H1 H2]. auto.
  - exists (shr_record_of_loc m l). replace E with e by lia.
    rewrite Z.sub_diag, shr_m_of_loc, loc_of_shr_record_of_loc.
    change (2 ^ 0) with 1. rewrite Z.div_1_r. auto.
Qed.

Lemma round_nearest_even_bounds m l :
  m <= round_nearest_even m l <= m + 1
  /\ (l = loc_Exact -> round_nearest_even m l = m).
Proof.
  split; [|intros ->; reflexivity].
  destruct l as [|[]]; cbn; try lia.
  destruct (Z.even m); lia.
Qed.

Lemma binary_round_aux_spec sx mx ex lx :
  0 <= mx ->
  ex <= fexp prec emax (Zdigits2 mx + ex) ->
  let e1 := fexp prec emax (Zdigits2 mx + ex) in
  let m1 := mx / 2 ^ (e1 - ex) in
  exists m2,
    m1 <= m2 <= m1 + 1
    /\ (lx = loc_Exact -> mx = m1 * 2 ^ (e1 - ex) -> m2 = m1)
    /\ let e3 := Z.max e1 (fexp prec emax (Zdigits2 m2 + e1)) in
       let m3 := m2 / 2 ^ (e3 - e1) in
       binary_round_aux prec emax sx mx ex lx = finish prec emax sx m3 e3.
Proof.
  intros Hm He e1 m1. unfold binary_round_aux.
  destruct (shr_fexp_spec mx ex lx Hm) as (mrs & E1 & Hm1 & Hl1).
  replace (Z.max ex (fexp prec emax (Zdigits2 mx + ex))) with e1 in * by (unfold e1; lia).
  rewrite E1. fold m1 in Hm1.
  set (m2 := round_nearest_even (shr_m mrs) (loc_of_shr_record mrs)).
  pose proof (round_nearest_even_bounds (shr_m mrs) (loc_of_shr_record mrs)) as [Hb Hx].
  fold m2 in Hb, Hx. rewrite Hm1 in Hb, Hx, Hl1.
  exists m2. split; [assumption|]. split; [auto|].
  assert (Hm1' : 0 <= m1).
  { apply Z.div_pos; [assumption|]. apply Z.pow_pos_nonneg; lia. }
  destruct (shr_fexp_spec m2 e1 loc_Exact ltac:(lia)) as (mrs' & E2 & Hm3 & _).
  rewrite E2, Hm3. reflexivity.
Qed.

(** The exponent chosen by the first shift is never above the one the
    rounded mantissa asks for. *)
Lemma round_second_shift mx ex m2 :
  0 <= mx ->
  ex <= fexp prec emax (Zdigits2 mx + ex) ->
  let e1 := fexp prec emax (Zdigits2 mx + ex) in
  let m1 := mx / 2 ^ (e1 - ex) in
  m1 <= m2 <= m1 + 1 ->
  0 < m2 ->
  e1 <= fexp prec emax (Zdigits2 m2 + e1).
Proof.
  intros Hmx He e1 m1 Hm2 Hm2'.
  assert (P1 : 0 < 2 ^ (e1 - ex)) by (apply Z.pow_pos_nonneg; lia).
  assert (Hm1 : 0 <= m1) by (apply Z.div_pos; lia).
  destruct (Z.eq_dec m1 0) as [E0|N0].
  - (* the first shift lost every digit: we are at the bottom *)
    assert (e1 = emin prec emax); [|pose proof (fexp_ge_emin (Zdigits2 m2 + e1)); lia].
    destruct (Z.eq_dec mx 0) as [->|Nx].
    + unfold e1 in *. cbn [Zdigits2] in *. unfold SpecFloat.fexp in *. lia.
    + assert (Hlt : mx < 2 ^ (e1 - ex)).
      { destruct (Z_lt_le_dec mx (2 ^ (e1 - ex))) as [|Hle]; [assumption|].
        assert (0 < m1) by (apply Z.div_str_pos; lia). lia. }
      pose proof (Zdigits2_bounds mx ltac:(lia)) as [Hd _].
      assert (Zdigits2 mx - 1 < e1 - ex).
      { apply (Z.pow_lt_mono_r_iff 2); lia. }
      unfold e1 in *. unfold SpecFloat.fexp in *. lia.
  - assert (Hd1 : Zdigits2 m1 = Zdigits2 mx - (e1 - ex)).
    { apply Zdigits2_div_pow2; [lia|].
      destruct (Z_le_gt_dec (2 ^ (e1 - ex)) mx) as [|Hgt]; [assumption|].
      assert (m1 = 0) by (apply Z.div_small; lia). lia. }
    pose proof (Zdigits2_mono m1 m2 ltac:(lia)).
    transitivity (fexp prec emax (Zdigits2 m1 + e1)); [|apply fexp_mono; lia].
    rewrite Hd1. replace (Zdigits2 mx - (e1 - ex) + e1) with (Zdigits2 mx + ex) by lia.
    reflexivity.
Qed.

(** A mantissa floored to the exponent of its magnitude is canonical. *)
Lemma floor_canonical m e :
  0 < m ->
  let E := fexp prec emax (Zdigits2 m + e) in
  e <= E ->
  0 < m / 2 ^ (E - e) ->
  fexp prec emax (Zdigits2 (m / 2 ^ (E - e)) + E) = E.
Proof.
  intros Hm E He Hq.
  assert (P : 0 < 2 ^ (E - e)) by (apply Z.pow_pos_nonneg; lia).
  rewrite Zdigits2_div_pow2; [|lia|].
  - replace (Zdigits2 m - (E - e) + E) with (Zdigits2 m + e) by lia. reflexivity.
  - destruct (Z_le_gt_dec (2 ^ (E - e)) m) as [|Hgt]; [assumption|].
    rewrite Z.div_small in Hq by lia. lia.
Qed.

(** Moving a value to a finer exponent keeps it an integer multiple. *)
Lemma F2R_change_exp m e e' :
  e' <= e -> F2R m e = F2R (m * 2 ^ (e - e')) e'.
Proof.
  intros H. unfold F2R. rewrite mult_IZR, IZR_pow2 by lia.
  replace e with ((e - e') + e') at 1 by lia. rewrite bpow_add. ring.
Qed.

(** Flooring [m * 2^e] to a coarser exponent. *)
Lemma F2R_floor m e E :
  0 <= m -> e <= E ->
  (F2R (m / 2 ^ (E - e)) E <= F2R m e)%R
  /\ (m <> m / 2 ^ (E - e) * 2 ^ (E - e) -> (F2R (m / 2 ^ (E - e)) E < F2R m e)%R).
Proof.
  intros Hm He. assert (P : 0 < 2 ^ (E - e)) by (apply Z.pow_pos_nonneg; lia).
  pose proof (Z.mul_div_le m (2 ^ (E - e)) P) as Hle.
  rewrite (F2R_change_exp (m / 2 ^ (E - e)) E e He).
  pose proof (bpow_pos e) as He'. unfold F2R.
  split.
  - apply Rmult_le_compat_r; [lra|]. apply IZR_le. lia.
  - intros Hne. apply Rmult_lt_compat_r; [lra|]. apply IZR_lt. lia.
Qed.

Lemma F2R_le_same_exp m m' e : m <= m' -> (F2R m e <= F2R m' e)%R.
Proof.
  intros H. unfold F2R. apply Rmult_le_compat_r; [pose proof (bpow_pos e); lra|].
  apply IZR_le. assumption.
Qed.

Lemma F2R_le_inv_same_exp m m' e : (F2R m e <= F2R m' e)%R -> m <= m'.
Proof.
  unfold F2R. intros H. apply le_IZR. pose proof (bpow_pos e). nra.
Qed.

Lemma F2R_lt_inv_same_exp m m' e : (F2R m e < F2R m' e)%R -> m < m'.
Proof.
  unfold F2R. intros H. apply lt_IZR. pose proof (bpow_pos e). nra.
Qed.

(** A value at least as large as a canonical float stays so when it is
    floored to the exponent of its own magnitude. *)
Lemma floor_keeps_lower_bound mb eb m e :
  0 < mb -> fexp prec emax (Zdigits2 mb + eb) = eb ->
  0 < m ->
  let E := fexp prec emax (Zdigits2 m + e) in
  e <= E ->
  (F2R mb eb <= F2R m e)%R ->
  (F2R mb eb <= F2R (m / 2 ^ (E - e)) E)%R.
Proof.
  intros Hmb Hcb Hm E He Hle.
  pose proof (F2R_bounds mb eb Hmb) as [Bl Bu].
  pose proof (F2R_bounds m e Hm) as [Ml Mu].
  assert (Hmag : Zdigits2 mb + eb <= Zdigits2 m + e).
  { assert (Zdigits2 mb + eb - 1 < Zdigits2 m + e) by (apply bpow_lt_inv; lra). lia. }
  assert (HebE : eb <= E) by (rewrite <- Hcb; apply fexp_mono; assumption).
  assert (P : 0 < 2 ^ (E - e)) by (apply Z.pow_pos_nonneg; lia).
  destruct (Z.eq_dec (Zdigits2 mb + eb) (Zdigits2 m + e)) as [Heq|Hne].
  - assert (eb = E) by (unfold E; congruence). subst eb.
    apply F2R_le_same_exp. apply Z.div_le_lower_bound; [assumption|].
    rewrite (F2R_change_exp mb E e He) in Hle.
    apply F2R_le_inv_same_exp in Hle. lia.
  - destruct (Z_le_gt_dec (E - e) (Zdigits2 m - 1)) as [Hfit|Hno].
    + (* the leading digit survives the shift *)
      apply Rle_trans with (bpow (Zdigits2 m + e - 1)).
      * apply Rle_trans with (bpow (Zdigits2 mb + eb)); [lra|]. apply bpow_le. lia.
      * replace (Zdigits2 m + e - 1) with ((Zdigits2 m - 1 - (E - e)) + E) by lia.
        rewrite bpow_add, <- IZR_pow2 by lia. apply F2R_le_same_exp.
        apply Z.div_le_lower_bound; [assumption|].
        rewrite Z.mul_comm, <- Z.pow_add_r by lia.
        replace (Zdigits2 m - 1 - (E - e) + (E - e)) with (Zdigits2 m - 1) by lia.
        apply Zdigits2_bounds. assumption.
    + (* impossible: the value would be below the least positive float *)
      exfalso.
      assert (E = emin prec emax) by (unfold E in *; unfold SpecFloat.fexp in *; lia).
      pose proof (fexp_ge_emin (Zdigits2 mb + eb)) as Hb. rewrite Hcb in Hb.
      assert (bpow eb <= F2R mb eb)%R.
      { unfold F2R. pose proof (bpow_pos eb).
        assert (1 <= IZR mb)%R by (apply IZR_le; lia). nra. }
      assert (bpow (Zdigits2 m + e) <= bpow eb)%R by (apply bpow_le; lia).
      lra.
Qed.

Lemma finish_pos sx m e :
  0 < m ->
  finish prec emax sx m e
  = if Z.leb e (emax - prec) then S754_finite sx (Z.to_pos m) e else S754_infinity sx.
Proof. destruct m; try lia. reflexivity. Qed.

Lemma bounded_intro (p : positive) e :
  fexp prec emax (Zdigits2 (Zpos p) + e) = e -> e <= emax - prec ->
  bounded prec emax p e = true.
Proof.
  intros Hc He. unfold bounded, canonical_mantissa. cbn [Zdigits2] in Hc.
  rewrite Hc, Z.eqb_refl. apply Z.leb_le. assumption.
Qed.

Lemma bounded_elim (p : positive) e :
  bounded prec emax p e = true ->
  fexp prec emax (Zdigits2 (Zpos p) + e) = e /\ e <= emax - prec.
Proof.
  unfold bounded, canonical_mantissa. intros H. apply andb_true_iff in H as [H1 H2].
  apply Z.eqb_eq in H1. apply Z.leb_le in H2. auto.
Qed.

Lemma F2R_pos m e : 0 < m -> (0 < F2R m e)%R.
Proof.
  intros H. unfold F2R. apply Rmult_lt_0_compat; [apply IZR_lt; assumption|apply bpow_pos].
Qed.

Lemma F2R_pos_inv m e : (0 < F2R m e)%R -> 0 < m.
Proof.
  unfold F2R. intros H. apply lt_IZR. pose proof (bpow_pos e). nra.
Qed.

(** Canonical floats are ordered like their magnitudes. *)
Lemma canonical_exp_le m e m' e' :
  0 < m -> 0 < m' ->
  fexp prec emax (Zdigits2 m + e) = e -> fexp prec emax (Zdigits2 m' + e') = e' ->
  (F2R m e <= F2R m' e')%R -> e <= e'.
Proof.
  intros Hm Hm' Hc Hc' Hle.
  pose proof (F2R_bounds m e Hm) as [Bl _].
  pose proof (F2R_bounds m' e' Hm') as [_ Bu].
  assert (Zdigits2 m + e - 1 < Zdigits2 m' + e') by (apply bpow_lt_inv; lra).
  rewrite <- Hc, <- Hc'. apply fexp_mono. lia.
Qed.

(** Rounding a value that is at least a canonical float [mb * 2^eb]
    gives a float at least that large, or overflows. *)
Lemma round_lower sx mx ex lx mb eb :
  0 < mb -> fexp prec emax (Zdigits2 mb + eb) = eb ->
  0 <= mx -> ex <= fexp prec emax (Zdigits2 mx + ex) ->
  (F2R mb eb <= F2R mx ex)%R ->
  binary_round_aux prec emax sx mx ex lx = S754_infinity sx
  \/ exists m e,
       binary_round_aux prec emax sx mx ex lx = S754_finite sx m e
       /\ bounded prec emax m e = true
       /\ (F2R mb eb <= F2R (Zpos m) e)%R.
Proof.
  intros Hmb Hcb Hmx He Hle.
  destruct (binary_round_aux_spec sx mx ex lx Hmx He) as (m2 & Hb & _ & Hres).
  set (e1 := fexp prec emax (Zdigits2 mx + ex)) in *.
  set (m1 := mx / 2 ^ (e1 - ex)) in *.
  cbv zeta in Hres.
  pose proof (F2R_pos mb eb Hmb) as HB.
  assert (Hmx' : 0 < mx) by (apply (F2R_pos_inv mx ex); lra).
  assert (H1 : (F2R mb eb <= F2R m1 e1)%R)
    by (apply floor_keeps_lower_bound; assumption).
  assert (H2 : (F2R mb eb <= F2R m2 e1)%R).
  { apply Rle_trans with (1 := H1). apply F2R_le_same_exp. lia. }
  assert (Hm2 : 0 < m2) by (apply (F2R_pos_inv m2 e1); lra).
  pose proof (round_second_shift mx ex m2 Hmx He Hb Hm2) as Hge. fold e1 in Hge.
  replace (Z.max e1 (fexp prec emax (Zdigits2 m2 + e1))) with (fexp prec emax (Zdigits2 m2 + e1)) in Hres by lia.
  set (e3 := fexp prec emax (Zdigits2 m2 + e1)) in *.
  set (m3 := m2 / 2 ^ (e3 - e1)) in *.
  assert (H3 : (F2R mb eb <= F2R m3 e3)%R)
    by (apply floor_keeps_lower_bound; assumption).
  assert (Hm3 : 0 < m3) by (apply (F2R_pos_inv m3 e3); lra).
  pose proof (floor_canonical m2 e1 Hm2 Hge Hm3) as Hc3. fold e3 m3 in Hc3.
  rewrite Hres, finish_pos by assumption.
  destruct (Z.leb_spec e3 (emax - prec)) as [Hfin|Hinf]; [right|left; reflexivity].
  exists (Z.to_pos m3), e3. rewrite Z2Pos.id by assumption.
  split; [reflexivity|]. split; [|assumption].
  apply bounded_intro; [rewrite Z2Pos.id by assumption; assumption|assumption].
Qed.

(** Rounding a value that is at most a canonical float [mb * 2^eb]
    gives a float at most that large, and does not overflow. *)
Lemma round_upper sx mx ex lx mb eb :
  0 < mb -> fexp prec emax (Zdigits2 mb + eb) = eb -> eb <= emax - prec ->
  0 <= mx -> ex <= fexp prec emax (Zdigits2 mx + ex) ->
  (F2R mx ex <= F2R mb eb)%R ->
  (lx <> loc_Exact -> (F2R mx ex < F2R mb eb)%R) ->
  binary_round_aux prec emax sx mx ex lx = S754_zero sx
  \/ exists m e,
       binary_round_aux prec emax sx mx ex lx = S754_finite sx m e
       /\ bounded prec emax m e = true
       /\ (F2R (Zpos m) e <= F2R mb eb)%R.
Proof.
  intros Hmb Hcb Hfb Hmx He Hle Hlt.
  destruct (binary_round_aux_spec sx mx ex lx Hmx He) as (m2 & Hb & Hx & Hres).
  set (e1 := fexp prec emax (Zdigits2 mx + ex)) in *.
  set (m1 := mx / 2 ^ (e1 - ex)) in *.
  cbv zeta in Hres.
  assert (P1 : 0 < 2 ^ (e1 - ex)) by (apply Z.pow_pos_nonneg; lia).
  assert (Hm1 : 0 <= m1) by (apply Z.div_pos; lia).
  pose proof (fexp_ge_emin (Zdigits2 mb + eb)) as Hebmin. rewrite Hcb in Hebmin.
  (* the bound lies on the grid of the first shift *)
  assert (He1b : e1 <= eb).
  { destruct (Z.eq_dec mx 0) as [->|Nx].
    - unfold e1 in *. cbn [Zdigits2] in *. unfold SpecFloat.fexp in *. lia.
    - pose proof (F2R_bounds mx ex ltac:(lia)) as [Ml _].
      pose proof (F2R_bounds mb eb Hmb) as [_ Bu].
      assert (Zdigits2 mx + ex - 1 < Zdigits2 mb + eb) by (apply bpow_lt_inv; lra).
      rewrite <- Hcb. apply fexp_mono. lia. }
  pose proof (F2R_floor mx ex e1 Hmx He) as [Hfl Hfl'].
  fold m1 in Hfl, Hfl'.
  rewrite (F2R_change_exp mb eb e1 He1b) in Hle, Hlt.
  set (K := mb * 2 ^ (eb - e1)) in *.
  assert (Hm2K : m2 <= K).
  { destruct (Z.eq_dec m2 m1) as [->|Hne].
    - apply (F2R_le_inv_same_exp m1 K e1). lra.
    - assert (m1 < K); [|lia].
      apply (F2R_lt_inv_same_exp m1 K e1).
      destruct lx as [|c].
      + assert (mx <> m1 * 2 ^ (e1 - ex)) by (intros E; apply Hne, Hx; auto).
        specialize (Hfl' H). lra.
      + assert (F2R mx ex < F2R K e1)%R by (apply Hlt; discriminate). lra. }
  destruct (Z_lt_le_dec 0 m2) as [Hm2|Hm2]; cycle 1.
  { left. rewrite Hres. replace m2 with 0 by lia.
    rewrite Z.div_0_l; [reflexivity|].
    apply Z.pow_nonzero; [lia|]. lia. }
  pose proof (round_second_shift mx ex m2 Hmx He Hb Hm2) as Hge. fold e1 in Hge.
  replace (Z.max e1 (fexp prec emax (Zdigits2 m2 + e1))) with (fexp prec emax (Zdigits2 m2 + e1)) in Hres by lia.
  set (e3 := fexp prec emax (Zdigits2 m2 + e1)) in *.
  set (m3 := m2 / 2 ^ (e3 - e1)) in *.
  pose proof (F2R_floor m2 e1 e3 ltac:(lia) Hge) as [Hfl3 _]. fold m3 in Hfl3.
  assert (H3 : (F2R m3 e3 <= F2R K e1)%R).
  { apply Rle_trans with (1 := Hfl3). apply F2R_le_same_exp. assumption. }
  assert (P3 : 0 < 2 ^ (e3 - e1)) by (apply Z.pow_pos_nonneg; lia).
  destruct (Z_lt_le_dec 0 m3) as [Hm3|Hm3]; cycle 1.
  { left. rewrite Hres. assert (0 <= m3) by (apply Z.div_pos; lia).
    replace m3 with 0 by lia. reflexivity. }
  pose proof (floor_canonical m2 e1 Hm2 Hge Hm3) as Hc3. fold e3 m3 in Hc3.
  unfold K in H3. rewrite <- (F2R_change_exp mb eb e1 He1b) in H3.
  pose proof (canonical_exp_le m3 e3 mb eb Hm3 Hmb Hc3 Hcb H3) as He3b.
  right. rewrite Hres, finish_pos by assumption.
  destruct (Z.leb_spec e3 (emax - prec)) as [Hfin|Hinf]; [|lia].
  exists (Z.to_pos m3), e3. rewrite Z2Pos.id by assumption.
  split; [reflexivity|]. split; [|assumption].
  apply bounded_intro; [rewrite Z2Pos.id by assumption; assumption|assumption].
Qed.

(** ** Left alignment and [binary_round] *)

Lemma Pos_iter_xO m d : Zpos (Pos.iter xO m d) = Zpos m * 2 ^ Zpos d.
Proof.
  induction d as [|d IH] using Pos.peano_ind.
  - cbn. lia.
  - rewrite Pos.iter_succ, Pos2Z.inj_xO, IH, Pos2Z.inj_succ, Z.pow_succ_r by lia. ring.
Qed.

Lemma shl_align_spec mx ex ex' :
  let E := Z.min ex ex' in
  snd (shl_align mx ex ex') = E
  /\ Zpos (fst (shl_align mx ex ex')) = Zpos mx * 2 ^ (ex - E).
Proof.
  intros E. unfold shl_align. destruct (ex' - ex) as [|d|d] eqn:Hd; cbn [fst snd].
  - replace E with ex by lia. rewrite Z.sub_diag. split; [reflexivity|]. cbn. lia.
  - replace E with ex by lia. rewrite Z.sub_diag. split; [reflexivity|]. cbn. lia.
  - replace E with ex' by lia. split; [reflexivity|].
    rewrite Pos_iter_xO. f_equal. f_equal. lia.
Qed.

Lemma shl_align_F2R mx ex ex' :
  F2R (Zpos (fst (shl_align mx ex ex'))) (snd (shl_align mx ex ex'))
  = F2R (Zpos mx) ex.
Proof.
  destruct (shl_align_spec mx ex ex') as [-> ->].
  symmetry. apply F2R_change_exp. lia.
Qed.

Lemma Zdigits2_mul_pow2 m n :
  0 < m -> 0 <= n -> Zdigits2 (m * 2 ^ n) = Zdigits2 m + n.
Proof.
  intros Hm Hn. assert (0 < 2 ^ n) by (apply Z.pow_pos_nonneg; lia).
  rewrite !Zdigits2_log2 by nia.
  rewrite Z.log2_mul_pow2 by lia. lia.
Qed.

(** [binary_round] aligns first, so that [binary_round_aux] can be used. *)
Lemma binary_round_unfold sx mx ex :
  exists mz ez,
    binary_round prec emax sx mx ex = binary_round_aux prec emax sx (Zpos mz) ez loc_Exact
    /\ F2R (Zpos mz) ez = F2R (Zpos mx) ex
    /\ ez <= fexp prec emax (Zdigits2 (Zpos mz) + ez).
Proof.
  unfold binary_round.
  set (E := fexp prec emax (Zpos (digits2_pos mx) + ex)).
  destruct (shl_align mx ex E) as [mz ez] eqn:Hs.
  exists mz, ez. split; [reflexivity|].
  pose proof (shl_align_F2R mx ex E) as HF.
  pose proof (shl_align_spec mx ex E) as [He Hm].
  rewrite Hs in HF, He, Hm. cbn [fst snd] in HF, He, Hm.
  split; [assumption|].
  rewrite Hm, Zdigits2_mul_pow2 by lia.
  replace (Zdigits2 (Zpos mx) + (ex - Z.min ex E) + ez) with (Zpos (digits2_pos mx) + ex)
    by (cbn [Zdigits2]; lia).
  fold E. lia.
Qed.

Lemma binary_round_lower sx mx ex mb eb :
  0 < mb -> fexp prec emax (Zdigits2 mb + eb) = eb ->
  (F2R mb eb <= F2R (Zpos mx) ex)%R ->
  binary_round prec emax sx mx ex = S754_infinity sx
  \/ exists m e,
       binary_round prec emax sx mx ex = S754_finite sx m e
       /\ bounded prec emax m e = true
       /\ (F2R mb eb <= F2R (Zpos m) e)%R.
Proof.
  intros Hmb Hcb Hle.
  destruct (binary_round_unfold sx mx ex) as (mz & ez & -> & HF & Hp).
  apply round_lower; try assumption; [lia|]. rewrite HF. assumption.
Qed.

Lemma binary_round_upper sx mx ex mb eb :
  0 < mb -> fexp prec emax (Zdigits2 mb + eb) = eb -> eb <= emax - prec ->
  (F2R (Zpos mx) ex <= F2R mb eb)%R ->
  binary_round prec emax sx mx ex = S754_zero sx
  \/ exists m e,
       binary_round prec emax sx mx ex = S754_finite sx m e
       /\ bounded prec emax m e = true
       /\ (F2R (Zpos m) e <= F2R mb eb)%R.
Proof.
  intros Hmb Hcb Hfb Hle.
  destruct (binary_round_unfold sx mx ex) as (mz & ez & -> & HF & Hp).
  apply round_upper; try assumption;
    [lia | rewrite HF; assumption | intros H; contradiction].
Qed.

(** ** Addition of two positive finite floats *)

Lemma SFadd_pos_unfold mx ex my ey :
  exists mz ez,
    SFadd prec emax (S754_finite false mx ex) (S754_finite false my ey)
    = binary_round prec emax false mz ez
    /\ F2R (Zpos mz) ez = (F2R (Zpos mx) ex + F2R (Zpos my) ey)%R.
Proof.
  unfold SFadd. cbn [cond_Zopp].
  set (ez := Z.min ex ey).
  pose proof (shl_align_spec mx ex ez) as [Hxe Hxm].
  pose proof (shl_align_spec my ey ez) as [Hye Hym].
  replace (Z.min ex ez) with ez in * by lia.
  replace (Z.min ey ez) with ez in * by lia.
  set (a := fst (shl_align mx ex ez)) in *.
  set (b := fst (shl_align my ey ez)) in *.
  exists (a + b)%positive, ez. split; [reflexivity|].
  rewrite (F2R_change_exp (Zpos mx) ex ez), (F2R_change_exp (Zpos my) ey ez) by lia.
  rewrite <- Hxm, <- Hym. unfold F2R. rewrite Pos2Z.inj_add, plus_IZR. ring.
Qed.

Lemma SFadd_lower mx ex my ey mb eb :
  0 < mb -> fexp prec emax (Zdigits2 mb + eb) = eb ->
  (F2R mb eb <= F2R (Zpos mx) ex + F2R (Zpos my) ey)%R ->
  SFadd prec emax (S754_finite false mx ex) (S754_finite false my ey)
  = S754_infinity false
  \/ exists m e,
       SFadd prec emax (S754_finite false mx ex) (S754_finite false my ey)
       = S754_finite false m e
       /\ bounded prec emax m e = true
       /\ (F2R mb eb <= F2R (Zpos m) e)%R.
Proof.
  intros Hmb Hcb Hle.
  destruct (SFadd_pos_unfold mx ex my ey) as (mz & ez & -> & HF).
  apply binary_round_lower; try assumption. rewrite HF. assumption.
Qed.

Lemma SFadd_upper mx ex my ey mb eb :
  0 < mb -> fexp prec emax (Zdigits2 mb + eb) = eb -> eb <= emax - prec ->
  (F2R (Zpos mx) ex + F2R (Zpos my) ey <= F2R mb eb)%R ->
  SFadd prec emax (S754_finite false mx ex) (S754_finite false my ey)
  = S754_zero false
  \/ exists m e,
       SFadd prec emax (S754_finite false mx ex) (S754_finite false my ey)
       = S754_finite false m e
       /\ bounded prec emax m e = true
       /\ (F2R (Zpos m) e <= F2R mb eb)%R.
Proof.
  intros Hmb Hcb Hfb Hle.
  destruct (SFadd_pos_unfold mx ex my ey) as (mz & ez & -> & HF).
  apply binary_round_upper; try assumption. rewrite HF. assumption.
Qed.

(** ** Multiplication *)

Lemma mul_precondition (mx my : positive) ex ey :
  fexp prec emax (Zdigits2 (Zpos mx) + ex) = ex ->
  fexp prec emax (Zdigits2 (Zpos my) + ey) = ey ->
  ex + ey <= fexp prec emax (Zdigits2 (Zpos (mx * my)) + (ex + ey)).
Proof.
  intros Hx Hy.
  assert (Hd : Zdigits2 (Zpos mx) + Zdigits2 (Zpos my) - 1 <= Zdigits2 (Zpos (mx * my))).
  { rewrite Pos2Z.inj_mul, !Zdigits2_log2 by lia.
    pose proof (Z.log2_mul_below (Zpos mx) (Zpos my) ltac:(lia) ltac:(lia)). lia. }
  pose proof (Zdigits2_pos (Zpos mx) ltac:(lia)).
  pose proof (Zdigits2_pos (Zpos my) ltac:(lia)).
  unfold SpecFloat.fexp, SpecFloat.emin in *. lia.
Qed.

Lemma F2R_mul m e m' e' : (F2R m e * F2R m' e' = F2R (m * m') (e + e'))%R.
Proof. unfold F2R. rewrite mult_IZR, bpow_add. ring. Qed.

Lemma SFmul_lower sx sy mx ex my ey mb eb :
  bounded prec emax mx ex = true -> bounded prec emax my ey = true ->
  0 < mb -> fexp prec emax (Zdigits2 mb + eb) = eb ->
  (F2R mb eb <= F2R (Zpos mx) ex * F2R (Zpos my) ey)%R ->
  SFmul prec emax (S754_finite sx mx ex) (S754_finite sy my ey)
  = S754_infinity (xorb sx sy)
  \/ exists m e,
       SFmul prec emax (S754_finite sx mx ex) (S754_finite sy my ey)
       = S754_finite (xorb sx sy) m e
       /\ bounded prec emax m e = true
       /\ (F2R mb eb <= F2R (Zpos m) e)%R.
Proof.
  intros Hbx Hby Hmb Hcb Hle.
  apply bounded_elim in Hbx as [Hcx _]. apply bounded_elim in Hby as [Hcy _].
  unfold SFmul. apply round_lower; try assumption; [lia| |].
  - apply mul_precondition; assumption.
  - rewrite Pos2Z.inj_mul, <- F2R_mul. assumption.
Qed.

Lemma SFmul_upper sx sy mx ex my ey mb eb :
  bounded prec emax mx ex = true -> bounded prec emax my ey = true ->
  0 < mb -> fexp prec emax (Zdigits2 mb + eb) = eb -> eb <= emax - prec ->
  (F2R (Zpos mx) ex * F2R (Zpos my) ey <= F2R mb eb)%R ->
  SFmul prec emax (S754_finite sx mx ex) (S754_finite sy my ey)
  = S754_zero (xorb sx sy)
  \/ exists m e,
       SFmul prec emax (S754_finite sx mx ex) (S754_finite sy my ey)
       = S754_finite (xorb sx sy) m e
       /\ bounded prec emax m e = true
       /\ (F2R (Zpos m) e <= F2R mb eb)%R.
Proof.
  intros Hbx Hby Hmb Hcb Hfb Hle.
  apply bounded_elim in Hbx as [Hcx _]. apply bounded_elim in Hby as [Hcy _].
  unfold SFmul. apply round_upper; try assumption; [lia| | |intros H; contradiction].
  - apply mul_precondition; assumption.
  - rewrite Pos2Z.inj_mul, <- F2R_mul. assumption.
Qed.

(** ** Division *)

Lemma new_location_exact n r :
  new_location n r = loc_Exact <-> r = 0.
Proof.
  unfold new_location, new_location_even, new_location_odd.
  destruct (Z.even n); destruct (Z.eqb_spec r 0); split; intros H;
    try reflexivity; try assumption; try discriminate; contradiction.
Qed.

Lemma SFdiv_core_spec (mx my : positive) ex ey :
  let e' := Z.min (fexp prec emax (Zdigits2 (Zpos mx) + ex - (Zdigits2 (Zpos my) + ey))) (ex - ey) in
  let s := ex - ey - e' in
  let m' := Zpos mx * 2 ^ s in
  SFdiv_core_binary prec emax (Zpos mx) ex (Zpos my) ey
  = (m' / Zpos my, e', new_location (Zpos my) (m' mod Zpos my)).
Proof.
  intros e' s m'. unfold SFdiv_core_binary. fold e'. fold s.
  assert (Hs : 0 <= s) by (unfold s, e'; lia).
  assert (Hm' : match s with
                | Zpos _ => Z.shiftl (Zpos mx) s
                | Z0 => Zpos mx
                | Zneg _ => 0
                end = m').
  { unfold m'. destruct s as [|p|p]; [cbn; lia| |lia].
    apply Z.shiftl_mul_pow2. lia. }
  rewrite Hm'. unfold Z.div, Z.modulo.
  destruct (Z.div_eucl m' (Zpos my)) as [q r]. reflexivity.
Qed.

Lemma div_precondition (mx my : positive) ex ey :
  let e' := Z.min (fexp prec emax (Zdigits2 (Zpos mx) + ex - (Zdigits2 (Zpos my) + ey))) (ex - ey) in
  let s := ex - ey - e' in
  let q := (Zpos mx * 2 ^ s) / Zpos my in
  0 <= q /\ e' <= fexp prec emax (Zdigits2 q + e').
Proof.
  intros e' s q.
  assert (Hs : 0 <= s) by (unfold s, e'; lia).
  assert (P : 0 < 2 ^ s) by (apply Z.pow_pos_nonneg; lia).
  assert (Hq : 0 <= q) by (apply Z.div_pos; lia).
  split; [assumption|].
  set (dx := Zdigits2 (Zpos mx)) in *. set (dy := Zdigits2 (Zpos my)) in *.
  pose proof (Zdigits2_bounds (Zpos mx) ltac:(lia)) as [Hxl Hxu]. fold dx in Hxl, Hxu.
  pose proof (Zdigits2_bounds (Zpos my) ltac:(lia)) as [Hyl Hyu]. fold dy in Hyl, Hyu.
  pose proof (Zdigits2_pos (Zpos mx) ltac:(lia)) as Hdx. fold dx in Hdx.
  pose proof (Zdigits2_pos (Zpos my) ltac:(lia)) as Hdy. fold dy in Hdy.
  assert (Hnum : 2 ^ (dx - 1 + s) <= Zpos mx * 2 ^ s).
  { rewrite Z.pow_add_r by lia. nia. }
  assert (He'D : e' <= fexp prec emax (dx + ex - (dy + ey))) by (unfold e'; lia).
  destruct (Z.eq_dec q 0) as [E0|N0].
  - rewrite E0. cbn [Zdigits2].
    assert (Hlt : Zpos mx * 2 ^ s < Zpos my).
    { destruct (Z_lt_le_dec (Zpos mx * 2 ^ s) (Zpos my)) as [|Hle]; [assumption|].
      assert (0 < q) by (apply Z.div_str_pos; lia). lia. }
    assert (dx - 1 + s < dy) by (apply (Z.pow_lt_mono_r_iff 2); lia).
    unfold SpecFloat.fexp in *. lia.
  - assert (Hq' : 0 < q) by lia.
    assert (Hdq : dx - dy + s <= Zdigits2 q).
    { pose proof (Zdigits2_pos q Hq').
      destruct (Z_le_gt_dec (dx - dy + s) 1) as [|Hbig]; [lia|].
      set (n := dx - 1 + s - dy).
      assert (Pn : 0 < 2 ^ n) by (apply Z.pow_pos_nonneg; lia).
      assert (Hn : 2 ^ n <= q).
      { apply Z.div_le_lower_bound; [lia|].
        apply Z.le_trans with (2 := Hnum).
        replace (dx - 1 + s) with (dy + n) by lia.
        rewrite Z.pow_add_r by lia. nia. }
      pose proof (Zdigits2_mono (2 ^ n) q ltac:(lia)) as Hmono.
      rewrite (Zdigits2_log2 (2 ^ n)), Z.log2_pow2 in Hmono by lia.
      lia. }
    apply Z.le_trans with (1 := He'D). apply fexp_mono. unfold s in Hdq. lia.
Qed.

Lemma SFdiv_lower sx sy mx ex my ey mb eb :
  0 < mb -> fexp prec emax (Zdigits2 mb + eb) = eb ->
  (F2R mb eb * F2R (Zpos my) ey <= F2R (Zpos mx) ex)%R ->
  SFdiv prec emax (S754_finite sx mx ex) (S754_finite sy my ey)
  = S754_infinity (xorb sx sy)
  \/ exists m e,
       SFdiv prec emax (S754_finite sx mx ex) (S754_finite sy my ey)
       = S754_finite (xorb sx sy) m e
       /\ bounded prec emax m e = true
       /\ (F2R mb eb <= F2R (Zpos m) e)%R.
Proof.
  intros Hmb Hcb Hle. unfold SFdiv.
  rewrite SFdiv_core_spec.
  destruct (div_precondition mx my ex ey) as [Hq Hpre].
  set (e' := Z.min (fexp prec emax (Zdigits2 (Zpos mx) + ex - (Zdigits2 (Zpos my) + ey))) (ex - ey)) in *.
  set (s := ex - ey - e') in *.
  set (m' := Zpos mx * 2 ^ s) in *.
  set (q := m' / Zpos my) in *.
  assert (Hs : 0 <= s) by (unfold s, e'; lia).
  apply round_lower; try assumption.
  assert (Hx : F2R (Zpos mx) ex = F2R m' (e' + ey)).
  { unfold m'. replace s with (ex - (e' + ey)) by (unfold s; lia).
    apply F2R_change_exp. unfold s in Hs. lia. }
  pose proof (F2R_pos (Zpos my) ey ltac:(lia)) as Hy.
  destruct (Z_le_gt_dec e' eb) as [Hgrid|Hfine].
  - rewrite (F2R_change_exp mb eb e' Hgrid) in Hle |- *.
    apply F2R_le_same_exp. apply Z.div_le_lower_bound; [lia|].
    rewrite F2R_mul, Hx in Hle. apply F2R_le_inv_same_exp in Hle. lia.
  - pose proof (fexp_ge_emin (Zdigits2 mb + eb)) as Hebmin. rewrite Hcb in Hebmin.
    destruct (Z.eq_dec q 0) as [E0|N0].
    + exfalso. rewrite E0 in Hpre. cbn [Zdigits2] in Hpre.
      unfold SpecFloat.fexp in Hpre. lia.
    + assert (Hq' : 0 < q) by lia.
      pose proof (F2R_bounds mb eb Hmb) as [_ Bu].
      pose proof (F2R_bounds q e' Hq') as [Ql _].
      assert (Zdigits2 mb + eb < Zdigits2 q + e').
      { destruct (Z_lt_le_dec (Zdigits2 mb + eb) (Zdigits2 q + e')) as [|Hge]; [assumption|].
        apply fexp_mono in Hge. lia. }
      assert (bpow (Zdigits2 mb + eb) <= bpow (Zdigits2 q + e' - 1))%R
        by (apply bpow_le; lia).
      lra.
Qed.

Lemma SFdiv_upper sx sy mx ex my ey mb eb :
  0 < mb -> fexp prec emax (Zdigits2 mb + eb) = eb -> eb <= emax - prec ->
  (F2R (Zpos mx) ex <= F2R mb eb * F2R (Zpos my) ey)%R ->
  SFdiv prec emax (S754_finite sx mx ex) (S754_finite sy my ey)
  = S754_zero (xorb sx sy)
  \/ exists m e,
       SFdiv prec emax (S754_finite sx mx ex) (S754_finite sy my ey)
       = S754_finite (xorb sx sy) m e
       /\ bounded prec emax m e = true
       /\ (F2R (Zpos m) e <= F2R mb eb)%R.
Proof.
  intros Hmb Hcb Hfb Hle. unfold SFdiv.
  rewrite SFdiv_core_spec.
  destruct (div_precondition mx my ex ey) as [Hq Hpre].
  set (e' := Z.min (fexp prec emax (Zdigits2 (Zpos mx) + ex - (Zdigits2 (Zpos my) + ey))) (ex - ey)) in *.
  set (s := ex - ey - e') in *.
  set (m' := Zpos mx * 2 ^ s) in *.
  set (q := m' / Zpos my) in *.
  assert (Hs : 0 <= s) by (unfold s, e'; lia).
  assert (Hx : F2R (Zpos mx) ex = F2R m' (e' + ey)).
  { unfold m'. replace s with (ex - (e' + ey)) by (unfold s; lia).
    apply F2R_change_exp. unfold s in Hs. lia. }
  pose proof (F2R_pos (Zpos my) ey ltac:(lia)) as Hy.
  pose proof (Z.div_mod m' (Zpos my) ltac:(lia)) as Hdm. fold q in Hdm.
  pose proof (Z.mod_pos_bound m' (Zpos my) ltac:(lia)) as Hr.
  assert (Hqy : (F2R q e' * F2R (Zpos my) ey <= F2R (Zpos mx) ex)%R).
  { rewrite F2R_mul, Hx. apply F2R_le_same_exp. lia. }
  apply round_upper; try assumption.
  - nra.
  - intros Hloc.
    assert (Hr0 : m' mod Zpos my <> 0).
    { intros E. apply Hloc. apply new_location_exact. assumption. }
    assert (Hqy' : (F2R q e' * F2R (Zpos my) ey < F2R (Zpos mx) ex)%R).
    { rewrite F2R_mul, Hx. unfold F2R. apply Rmult_lt_compat_r; [apply bpow_pos|].
      apply IZR_lt. lia. }
    nra.
Qed.

(** ** Comparison of canonical floats *)

Lemma SFcompare_canonical_le m e m' e' :
  bounded prec emax m e = true -> bounded prec emax m' e' = true ->
  (F2R (Zpos m) e <= F2R (Zpos m') e')%R ->
  SFleb (S754_finite false m e) (S754_finite false m' e') = true.
Proof.
  intros Hb Hb' Hle.
  apply bounded_elim in Hb as [Hc _]. apply bounded_elim in Hb' as [Hc' _].
  pose proof (canonical_exp_le (Zpos m) e (Zpos m') e' ltac:(lia) ltac:(lia) Hc Hc' Hle) as He.
  unfold SFleb, SFcompare.
  destruct (Z.compare_spec e e') as [Heq|Hlt|Hgt]; [|reflexivity|lia].
  subst e'. apply F2R_le_inv_same_exp in Hle.
  change (Pos.compare_cont Eq m m') with (Pos.compare m m').
  destruct (Pos.compare_spec m m') as [?|?|?]; try reflexivity. lia.
Qed.

Lemma canonical_unique m e m' e' :
  bounded prec emax m e = true -> bounded prec emax m' e' = true ->
  F2R (Zpos m) e = F2R (Zpos m') e' ->
  m = m' /\ e = e'.
Proof.
  intros Hb Hb' HF.
  apply bounded_elim in Hb as [Hc _]. apply bounded_elim in Hb' as [Hc' _].
  assert (e <= e') by (apply (canonical_exp_le (Zpos m) e (Zpos m') e'); try lia; try assumption; lra).
  assert (e' <= e) by (apply (canonical_exp_le (Zpos m') e' (Zpos m) e); try lia; try assumption; lra).
  assert (e = e') by lia. subst e'. split; [|reflexivity].
  assert (Zpos m <= Zpos m') by (apply (F2R_le_inv_same_exp _ _ e); lra).
  assert (Zpos m' <= Zpos m) by (apply (F2R_le_inv_same_exp _ _ e); lra).
  lia.
Qed.
End Rounding.

(** * The filter coefficients in binary32 and binary64 *)

Lemma F2R_pow2 n e : 0 <= n -> F2R (2 ^ n) e = bpow (n + e).
Proof. intros H. unfold F2R. rewrite IZR_pow2, bpow_add by assumption. reflexivity. Qed.

Lemma bpow_as_F2R n e k : 0 <= n -> k = n + e -> bpow k = F2R (2 ^ n) e.
Proof. intros H ->. symmetry. apply F2R_pow2. assumption. Qed.

(** A result bounded below (or infinite) and above (or zero) is finite. *)
Lemma finite_between prec emax (x : spec_float) (sx : bool) (lo hi : R) :
  (x = S754_infinity sx
   \/ exists m e, x = S754_finite sx m e /\ bounded prec emax m e = true
                  /\ (lo <= F2R (Zpos m) e)%R) ->
  (x = S754_zero sx
   \/ exists m e, x = S754_finite sx m e /\ bounded prec emax m e = true
                  /\ (F2R (Zpos m) e <= hi)%R) ->
  exists m e, x = S754_finite sx m e /\ bounded prec emax m e = true
              /\ (lo <= F2R (Zpos m) e <= hi)%R.
Proof.
  intros [Hi|(m & e & E & Hb & Hl)] [Hz|(m' & e' & E' & Hb' & Hu)]; try congruence.
  rewrite E in E'. injection E' as <- <-. exists m, e. auto.
Qed.

(** Every finite binary32 number lies in [[2^-149, 2^128)]. *)
Lemma bounded32_range m e :
  bounded F32.prec F32.emax m e = true ->
  (bpow (-149) <= F2R (Zpos m) e < bpow 128)%R.
Proof.
  intros Hb. apply bounded_elim in Hb as [Hc He].
  pose proof (F2R_bounds (Zpos m) e ltac:(lia)) as [Hl Hu].
  pose proof (Zdigits2_pos (Zpos m) ltac:(lia)) as Hd.
  unfold F32.prec, F32.emax, fexp, emin in *.
  split.
  - apply Rle_trans with (2 := Hl). apply bpow_le. lia.
  - apply Rlt_le_trans with (1 := Hu). apply bpow_le. lia.
Qed.

(** [float] to [double] is exact: the result is the [double] of the same
    value. *)
Lemma of_f32_exact s mc ec :
  bounded F32.prec F32.emax mc ec = true ->
  exists m e,
    F64.of_f32 (S754_finite s mc ec) = S754_finite s m e
    /\ bounded F64.prec F64.emax m e = true
    /\ F2R (Zpos m) e = F2R (Zpos mc) ec.
Proof.
  intros Hb. apply bounded_elim in Hb as [Hc He].
  pose proof (Zdigits2_pos (Zpos mc) ltac:(lia)) as Hd.
  set (d := Zdigits2 (Zpos mc)) in *.
  assert (Hd24 : d <= 24 /\ -149 <= ec <= 104)
    by (unfold F32.prec, F32.emax, fexp, emin in *; lia).
  (* the same value with a mantissa of 53 bits *)
  set (mb := Zpos mc * 2 ^ (53 - d)). set (eb := ec - (53 - d)).
  assert (Hmb : 0 < mb) by (unfold mb; apply Z.mul_pos_pos; [lia|apply Z.pow_pos_nonneg; lia]).
  assert (HF : F2R (Zpos mc) ec = F2R mb eb).
  { unfold mb, eb. replace (53 - d) with (ec - (ec - (53 - d))) at 1 by lia.
    apply F2R_change_exp. lia. }
  assert (Hcb : fexp F64.prec F64.emax (Zdigits2 mb + eb) = eb).
  { unfold mb. rewrite Zdigits2_mul_pow2 by lia. fold d.
    unfold eb, F64.prec, F64.emax, fexp, emin. lia. }
  destruct (finite_between F64.prec F64.emax (F64.of_f32 (S754_finite s mc ec)) s
              (F2R mb eb) (F2R mb eb)) as (m & e & E & Hbm & Hr).
  - apply (binary_round_lower F64.prec F64.emax ltac:(reflexivity) s mc ec mb eb);
      [assumption|assumption|lra].
  - apply (binary_round_upper F64.prec F64.emax ltac:(reflexivity) s mc ec mb eb);
      [assumption|assumption|unfold eb, F64.prec, F64.emax; lia|lra].
  - exists m, e. split; [assumption|]. split; [assumption|]. lra.
Qed.

(** [float] to [double]: finite stays finite, within the same bounds. *)
Lemma of_f32_range mc ec :
  bounded F32.prec F32.emax mc ec = true ->
  exists m e,
    F64.of_f32 (S754_finite false mc ec) = S754_finite false m e
    /\ bounded F64.prec F64.emax m e = true
    /\ (bpow (-149) <= F2R (Zpos m) e <= bpow 128)%R.
Proof.
  intros Hb. pose proof (bounded32_range mc ec Hb) as [Hl Hu].
  destruct (of_f32_exact false mc ec Hb) as (m & e & E & Hbm & HF).
  exists m, e. split; [assumption|]. split; [assumption|]. lra.
Qed.

(** [2.0f * M_PI], a constant of the program. *)
Lemma two_pi_eq : F64.mul (F64.of_f32 (F32.of_Z 2)) M_PI = TWO_PI.
Proof. reflexivity. Qed.

Lemma two_pi_range : (bpow 2 <= F2R 7074237752028440 (-50) <= bpow 3)%R.
Proof.
  pose proof (F2R_bounds 7074237752028440 (-50) ltac:(lia)) as [Hl Hu].
  change (Zdigits2 7074237752028440 + -50 - 1) with 2 in Hl.
  change (Zdigits2 7074237752028440 + -50) with 3 in Hu. lra.
Qed.

Lemma bpow_mul_le a b (x y : R) :
  (bpow a <= x)%R -> (bpow b <= y)%R -> (bpow (a + b) <= x * y)%R.
Proof.
  intros Hx Hy. rewrite bpow_add. pose proof (bpow_pos a). pose proof (bpow_pos b). nra.
Qed.

Lemma mul_le_bpow a b (x y : R) :
  (0 <= x <= bpow a)%R -> (0 <= y <= bpow b)%R -> (x * y <= bpow (a + b))%R.
Proof. intros Hx Hy. rewrite bpow_add. nra. Qed.

(** [2π * c] in binary64. *)
Lemma two_pi_mul_range m e :
  bounded F64.prec F64.emax m e = true ->
  (bpow (-149) <= F2R (Zpos m) e <= bpow 128)%R ->
  exists m' e',
    F64.mul TWO_PI (S754_finite false m e) = S754_finite false m' e'
    /\ bounded F64.prec F64.emax m' e' = true
    /\ (bpow (-147) <= F2R (Zpos m') e' <= bpow 131)%R.
Proof.
  intros Hb [Hl Hu]. pose proof two_pi_range as [Pl Pu].
  pose proof (bpow_pos (-149)). pose proof (bpow_pos 2).
  unfold F64.mul, TWO_PI.
  change false with (xorb false false) at 3.
  rewrite (bpow_as_F2R 52 (-199) (-147)), (bpow_as_F2R 52 79 131) by reflexivity || lia.
  apply finite_between.
  - apply (SFmul_lower F64.prec F64.emax ltac:(reflexivity) ltac:(reflexivity)
             false false _ _ m e (2 ^ 52) (-199));
      [reflexivity|assumption|reflexivity|reflexivity|].
    rewrite F2R_pow2 by lia. change (52 + -199) with (2 + -149).
    apply bpow_mul_le; assumption.
  - apply (SFmul_upper F64.prec F64.emax ltac:(reflexivity) ltac:(reflexivity)
             false false _ _ m e (2 ^ 52) 79);
      [reflexivity|assumption|reflexivity|reflexivity|discriminate|].
    rewrite F2R_pow2 by lia. change (52 + 79) with (3 + 128).
    apply mul_le_bpow; lra.
Qed.

Lemma one64_eq : F64.of_f32 F32.one = ONE64.
Proof. reflexivity. Qed.

Lemma F2R_one64 : F2R 4503599627370496 (-52) = 1%R.
Proof. change 4503599627370496 with (2 ^ 52). rewrite F2R_pow2 by lia. reflexivity. Qed.

(** [1 / (2π * c)] in binary64. *)
Lemma reciprocal_range m e :
  bounded F64.prec F64.emax m e = true ->
  (bpow (-147) <= F2R (Zpos m) e <= bpow 131)%R ->
  exists m' e',
    F64.div ONE64 (S754_finite false m e) = S754_finite false m' e'
    /\ bounded F64.prec F64.emax m' e' = true
    /\ (bpow (-131) <= F2R (Zpos m') e' <= bpow 147)%R.
Proof.
  intros Hb [Hl Hu]. pose proof (bpow_pos (-147)). pose proof (bpow_pos (-131)).
  pose proof (bpow_pos 147).
  unfold F64.div, ONE64.
  change false with (xorb false false) at 3.
  rewrite (bpow_as_F2R 52 (-183) (-131)), (bpow_as_F2R 52 95 147) by reflexivity || lia.
  apply finite_between.
  - apply (SFdiv_lower F64.prec F64.emax ltac:(reflexivity)
             false false _ _ m e (2 ^ 52) (-183)); [reflexivity|reflexivity|].
    rewrite F2R_pow2, F2R_one64 by lia. change (52 + -183) with (-131).
    apply Rle_trans with (bpow (-131) * bpow 131)%R; [nra|].
    rewrite <- bpow_add. change (-131 + 131) with 0. rewrite bpow_0. lra.
  - apply (SFdiv_upper F64.prec F64.emax ltac:(reflexivity)
             false false _ _ m e (2 ^ 52) 95); [reflexivity|reflexivity|discriminate|].
    rewrite F2R_pow2, F2R_one64 by lia. change (52 + 95) with 147.
    apply Rle_trans with (bpow 147 * bpow (-147))%R; [|nra].
    rewrite <- bpow_add. change (147 + -147) with 0. rewrite bpow_0. lra.
Qed.

(** The time constant of a finite positive cutoff frequency is a positive
    float or [+inf]; it is never zero and never NaN. *)
Lemma rc_of_finite_pos mc ec :
  bounded F32.prec F32.emax mc ec = true ->
  rc_of (S754_finite false mc ec) = S754_infinity false
  \/ exists m e,
       rc_of (S754_finite false mc ec) = S754_finite false m e
       /\ bounded F32.prec F32.emax m e = true.
Proof.
  intros Hb. unfold rc_of. rewrite two_pi_eq, one64_eq.
  destruct (of_f32_range mc ec Hb) as (m1 & e1 & -> & Hb1 & Hr1).
  destruct (two_pi_mul_range m1 e1 Hb1 Hr1) as (m2 & e2 & -> & Hb2 & Hr2).
  destruct (reciprocal_range m2 e2 Hb2 Hr2) as (m3 & e3 & -> & Hb3 & Hr3).
  unfold F64.to_f32.
  destruct (binary_round_lower F32.prec F32.emax ltac:(reflexivity) false m3 e3 (2 ^ 18) (-149))
    as [Hinf|(m & e & E & Hbd & _)]; [reflexivity|reflexivity| |left; assumption|].
  - rewrite F2R_pow2 by lia. change (18 + -149) with (-131). tauto.
  - right. exists m, e. auto.
Qed.

Lemma F2R_one32 : F2R 8388608 (-23) = 1%R.
Proof. change 8388608 with (2 ^ 23). rewrite F2R_pow2 by lia. reflexivity. Qed.

(** [alpha = dt / (rc + dt)] for a finite positive [dt] and a time constant
    that is zero, positive or [+inf]: the quotient is [+0] or a positive
    float not above 1. *)
Lemma alpha_of_range rc md ed :
  nonneg32 rc ->
  bounded F32.prec F32.emax md ed = true ->
  alpha_of rc (S754_finite false md ed) = S754_zero false
  \/ exists m e,
       alpha_of rc (S754_finite false md ed) = S754_finite false m e
       /\ bounded F32.prec F32.emax m e = true
       /\ (F2R (Zpos m) e <= 1)%R.
Proof.
  intros Hrc Hbd. unfold alpha_of.
  pose proof (bounded_elim _ _ _ _ Hbd) as [Hcd _].
  pose proof (F2R_pos (Zpos md) ed ltac:(lia)) as Hdpos.
  assert (Hdiv : forall ms es,
    (F2R (Zpos md) ed <= F2R (Zpos ms) es)%R ->
    F32.div (S754_finite false md ed) (S754_finite false ms es) = S754_zero false
    \/ exists m e,
         F32.div (S754_finite false md ed) (S754_finite false ms es) = S754_finite false m e
         /\ bounded F32.prec F32.emax m e = true
         /\ (F2R (Zpos m) e <= 1)%R).
  { intros ms es Hle.
    destruct (SFdiv_upper F32.prec F32.emax ltac:(reflexivity) false false md ed ms es
                8388608 (-23)) as [Hz|(m & e & E & Hb & Hu)];
      [reflexivity|reflexivity|discriminate|rewrite F2R_one32; lra| |].
    - left. exact Hz.
    - right. exists m, e. rewrite F2R_one32 in Hu. auto. }
  destruct Hrc as [[s ->]|[->|(mr & er & -> & Hbr)]].
  - (* rc = 0 *) cbn [F32.add SFadd]. apply Hdiv. lra.
  - (* rc = +inf *) left. reflexivity.
  - (* rc finite *)
    pose proof (F2R_pos (Zpos mr) er ltac:(lia)) as Hrpos.
    destruct (SFadd_lower F32.prec F32.emax ltac:(reflexivity) mr er md ed (Zpos md) ed)
      as [Hinf|(ms & es & Hs & _ & Hle)]; [lia|assumption|lra| |].
    + left. unfold F32.add. rewrite Hinf. reflexivity.
    + unfold F32.add. rewrite Hs. apply Hdiv. assumption.
Qed.

(** Multiplying by [1.0f] on the left is exact. *)
Lemma mul_one_l (p : spec_float) :
  F32.valid p = true -> F32.mul F32.one p = p.
Proof.
  destruct p as [s|s| |s m e]; try reflexivity.
  intros Hb. cbn [F32.valid valid_binary] in Hb.
  assert (Hone : bounded F32.prec F32.emax 8388608 (-23) = true) by reflexivity.
  pose proof (bounded_elim _ _ _ _ Hb) as [Hc He].
  assert (HF : (F2R 8388608 (-23) * F2R (Zpos m) e = F2R (Zpos m) e)%R)
    by (rewrite F2R_one32; lra).
  destruct (finite_between F32.prec F32.emax (F32.mul F32.one (S754_finite s m e))
              (xorb false s) (F2R (Zpos m) e) (F2R (Zpos m) e))
    as (m' & e' & E & Hb' & Hr).
  - apply (SFmul_lower F32.prec F32.emax ltac:(reflexivity) ltac:(reflexivity)
             false s 8388608 (-23) m e (Zpos m) e); try assumption; [lia|lra].
  - apply (SFmul_upper F32.prec F32.emax ltac:(reflexivity) ltac:(reflexivity)
             false s 8388608 (-23) m e (Zpos m) e); try assumption; [lia|lra].
  - rewrite E. cbn [xorb].
    destruct (canonical_unique F32.prec F32.emax m' e' m e Hb' Hb) as [-> ->];
      [lra|reflexivity].
Qed.

(** The time constant of any valid positive cutoff frequency. *)
Lemma rc_of_nonneg (c : spec_float) :
  F32.valid c = true -> F32.ltb F32.zero c = true -> nonneg32 (rc_of c).
Proof.
  destruct c as [s|[|]| |[|] m e]; try discriminate; intros Hv _.
  - left. exists false. reflexivity.
  - destruct (rc_of_finite_pos m e Hv) as [H|H]; [right; left|right; right]; assumption.
Qed.

(** With the default cutoff of 50 Hz. *)
Lemma rc_of_50 : rc_of (F32.of_Z 50) = S754_finite false 13671306 (-32).
Proof. reflexivity. Qed.

Lemma rc_plus_dt_positive (dt : spec_float) :
  F32.valid dt = true -> F32.leb F32.zero dt = true ->
  F32.ltb F32.zero (F32.add (rc_of (F32.of_Z 50)) dt) = true.
Proof.
  rewrite rc_of_50.
  destruct dt as [s|[|]| |[|] m e]; try discriminate; intros Hv _; try reflexivity.
  destruct (SFadd_lower F32.prec F32.emax ltac:(reflexivity) 13671306 (-32) m e
              13671306 (-32)) as [H|(m' & e' & H & _)]; [reflexivity|reflexivity| | |].
  - pose proof (F2R_pos (Zpos m) e ltac:(lia)). lra.
  - unfold F32.add. rewrite H. reflexivity.
  - unfold F32.add. rewrite H. reflexivity.
Qed.

(** The largest finite binary32 number. *)
Lemma bounded32_below_max m e :
  bounded F32.prec F32.emax m e = true ->
  (m, e) <> (16777215%positive, 104) ->
  (F2R (Zpos m) e <= F2R 16777214 104)%R.
Proof.
  intros Hb Hne. apply bounded_elim in Hb as [Hc He].
  pose proof (Zdigits2_bounds (Zpos m) ltac:(lia)) as [_ Hu].
  pose proof (Zdigits2_pos (Zpos m) ltac:(lia)) as Hd.
  assert (Hd24 : Zdigits2 (Zpos m) <= 24)
    by (unfold F32.prec, F32.emax, fexp, emin in *; lia).
  assert (Hm : Zpos m < 2 ^ 24).
  { apply Z.lt_le_trans with (1 := Hu). apply Z.pow_le_mono_r; lia. }
  unfold F32.prec, F32.emax in He.
  destruct (Z.eq_dec e 104) as [->|Hlt].
  - apply F2R_le_same_exp.
    assert (Zpos m <> 16777215) by (intros E; apply Hne; f_equal; lia). lia.
  - rewrite (F2R_change_exp 16777214 104 e) by lia.
    apply F2R_le_same_exp.
    assert (P : 2 <= 2 ^ (104 - e)).
    { change 2 with (2 ^ 1) at 1. apply Z.pow_le_mono_r; lia. }
    nia.
Qed.

(** With the default cutoff the smoothing factor of a finite positive [dt]
    does not underflow. *)
Lemma alpha_positive_default md ed :
  bounded F32.prec F32.emax md ed = true ->
  F32.ltb F32.zero (alpha_of (rc_of (F32.of_Z 50)) (S754_finite false md ed)) = true.
Proof.
  intros Hbd. rewrite rc_of_50.
  assert (Hcase : (md, ed) = (16777215%positive, 104)
                  \/ (md, ed) <> (16777215%positive, 104)).
  { destruct (positive_eq_dec md 16777215); destruct (Z.eq_dec ed 104);
      [left; congruence|right; congruence ..]. }
  destruct Hcase as [[= -> ->]|Hne]; [reflexivity|].
  pose proof (bounded32_below_max md ed Hbd Hne) as Hmax.
  pose proof (bounded32_range md ed Hbd) as [Hmin _].
  pose proof (bounded_elim _ _ _ _ Hbd) as [Hcd _].
  pose proof (F2R_pos (Zpos md) ed ltac:(lia)) as Hdpos.
  unfold alpha_of.
  assert (Hrc : (F2R 13671306 (-32) <= bpow (-8))%R)
    by (rewrite (bpow_as_F2R 24 (-32) (-8)) by (reflexivity || lia);
        apply F2R_le_same_exp; lia).
  assert (Hs : exists ms es,
    F32.add (S754_finite false 13671306 (-32)) (S754_finite false md ed)
    = S754_finite false ms es
    /\ (bpow (-149) * F2R (Zpos ms) es <= F2R (Zpos md) ed)%R).
  { destruct (Rle_lt_dec (F2R (Zpos md) ed) (bpow (-8))) as [Hsmall|Hbig].
    - (* short ticks: rc + dt <= 2^-7 *)
      destruct (SFadd_upper F32.prec F32.emax ltac:(reflexivity)
                  13671306 (-32) md ed (2 ^ 23) (-30))
        as [Hz|(ms & es & E & _ & Hu)]; [reflexivity|reflexivity|discriminate| | |].
      + rewrite F2R_pow2 by lia. change (23 + -30) with (-8 + 1).
        rewrite bpow_add, bpow_1. lra.
      + exfalso.
        destruct (SFadd_lower F32.prec F32.emax ltac:(reflexivity)
                    13671306 (-32) md ed (Zpos md) ed)
          as [Hi|(ms & es & E & _)]; [lia|assumption| | |];
          [pose proof (F2R_pos 13671306 (-32) ltac:(lia)); lra| |];
          unfold F32.add in *; congruence.
      + exists ms, es. split; [exact E|].
        rewrite F2R_pow2 in Hu by lia. change (23 + -30) with (-7) in Hu.
        pose proof (bpow_pos (-149)). pose proof (bpow_le (-7) 0 ltac:(lia)) as H7.
        rewrite bpow_0 in H7. nra.
    - (* long ticks: rc + dt is at most the largest float *)
      destruct (SFadd_upper F32.prec F32.emax ltac:(reflexivity)
                  13671306 (-32) md ed 16777215 104)
        as [Hz|(ms & es & E & Hbs & Hu)]; [reflexivity|reflexivity|discriminate| | |].
      + assert (F2R 16777215 104 = F2R 16777214 104 + bpow 104)%R.
        { unfold F2R. change 16777215 with (16777214 + 1). rewrite plus_IZR. ring. }
        pose proof (bpow_le (-8) 104 ltac:(lia)). lra.
      + exfalso.
        destruct (SFadd_lower F32.prec F32.emax ltac:(reflexivity)
                    13671306 (-32) md ed (Zpos md) ed)
          as [Hi|(ms & es & E & _)]; [lia|assumption| | |];
          [pose proof (F2R_pos 13671306 (-32) ltac:(lia)); lra| |];
          unfold F32.add in *; congruence.
      + exists ms, es. split; [exact E|].
        pose proof (bounded32_range ms es Hbs) as [_ Hlt].
        pose proof (bpow_pos (-149)).
        assert (bpow (-149) * bpow 128 = bpow (-21))%R by (rewrite <- bpow_add; reflexivity).
        pose proof (bpow_le (-21) (-8) ltac:(lia)). nra. }
  destruct Hs as (ms & es & Es & Hle). rewrite Es.
  destruct (SFdiv_lower F32.prec F32.emax ltac:(reflexivity) false false
              md ed ms es 1 (-149)) as [Hi|(m & e & E & _)];
    [lia|reflexivity| | |];
    [unfold F2R at 1; rewrite Rmult_1_l; exact Hle| |];
    unfold F32.div; [rewrite Hi|rewrite E]; reflexivity.
Qed.
(** ** Basic facts about the entry points *)

Lemma process_null_state ffb_in ws wa dt q m :
  plugin_process NULL ffb_in ws wa dt q m = Some (-1, m).
Proof. reflexivity. Qed.

Lemma process_null_out p ffb_in ws wa dt m :
  plugin_process p ffb_in ws wa dt NULL m = Some (-1, m).
Proof. destruct p; reflexivity. Qed.

Lemma process_live a q st old ffb_in ws wa dt m :
  heap m !! a = Some st ->
  cells m !! q = Some old ->
  plugin_process (Npos a) ffb_in ws wa dt (Npos q) m
  = Some (0, mkMem (<[a := step_state st ffb_in dt]> (heap m))
                   (<[q := previous_output (step_state st ffb_in dt)]> (cells m))
                   (pool m)).
Proof.
  intros Ha Hq. unfold plugin_process, bind, load, store, store_float, ret.
  cbn [is_null N.eqb orb heap cells pool].
  repeat (rewrite ?Ha, ?Hq, ?lookup_insert_eq; cbn [heap cells pool]).
  rewrite insert_insert_eq. reflexivity.
Qed.

Lemma create_fail config config_len m :
  pool m = [] -> plugin_create config config_len m = Some (NULL, m).
Proof. intros H. unfold plugin_create, bind, malloc. rewrite H. reflexivity. Qed.

Lemma create_ok config config_len m a junk rest :
  pool m = (a, junk) :: rest ->
  plugin_create config config_len m
  = Some (Npos a, mkMem (<[a := default_state]> (heap m)) (cells m) rest).
Proof.
  intros H. unfold plugin_create, bind, malloc, store, ret. rewrite H.
  cbn [is_null N.eqb heap cells pool].
  repeat (rewrite lookup_insert_eq; cbn [heap cells pool]).
  rewrite !insert_insert_eq. reflexivity.
Qed.

(** A successful [create] leaves the defaults behind its handle. *)
Lemma create_some config config_len m a m' :
  plugin_create config config_len m = Some (Npos a, m') ->
  heap m' !! a = Some default_state.
Proof.
  intros H. destruct (pool m) as [|[b junk] rest] eqn:Hpool.
  - rewrite (create_fail _ _ _ Hpool) in H. discriminate.
  - rewrite (create_ok _ _ _ _ _ _ Hpool) in H. injection H as <- <-.
    cbn [heap]. apply lookup_insert_eq.
Qed.

(** ** The filter step, the status and the error paths *)

(** C1. With live instance and output cell, [process] writes
    [alpha * ffb_in + (1 - alpha) * p] to the cell, where
    [rc = 1 / (2π * c)] and [alpha = dt / (rc + dt)] (each operation being
    the C one: binary64 for [2π * c] and its reciprocal, binary32 for the
    rest), and stores the same value as the new [previous_output]; a freshly
    created instance has [previous_output = 0]. *)
Theorem process_writes_lowpass_output
    (m : Mem) (a q : positive) (st : PluginState)
    (old ffb_in wheel_speed wheel_angle dt : spec_float)
    (config : option (list Byte.byte)) (config_len : N)
    (m0 : Mem) (b : positive) (junk : PluginState) (rest : list (positive * PluginState)) :
  heap m !! a = Some st ->
  cells m !! q = Some old ->
  pool m0 = (b, junk) :: rest ->
  let c := cutoff_freq st in
  let p := previous_output st in
  let rc := F64.to_f32
              (F64.div (F64.of_f32 F32.one)
                 (F64.mul (F64.mul (F64.of_f32 (F32.of_Z 2)) M_PI) (F64.of_f32 c))) in
  let alpha := F32.div dt (F32.add rc dt) in
  let y := F32.add (F32.mul alpha ffb_in) (F32.mul (F32.sub F32.one alpha) p) in
  (exists m',
      plugin_process (Npos a) ffb_in wheel_speed wheel_angle dt (Npos q) m = Some (0, m')
      /\ cells m' !! q = Some y
      /\ previous_output <$> heap m' !! a = Some y)
  /\ (exists m1,
      plugin_create config config_len m0 = Some (Npos b, m1)
      /\ previous_output <$> heap m1 !! b = Some (S754_zero false)).
Proof.
  intros Ha Hq Hpool c p rc alpha y. split.
  - eexists. split; [apply (process_live a q st old); assumption|].
    cbn [heap cells pool]. rewrite !lookup_insert_eq. split; reflexivity.
  - eexists. split; [apply (create_ok _ _ _ _ _ _ Hpool)|].
    cbn [heap]. rewrite lookup_insert_eq. reflexivity.
Qed.

Lemma process_writes_lowpass_output_witness :
  heap mem_live !! 7%positive = Some default_state
  /\ cells mem_live !! 1%positive = Some S754_nan
  /\ pool mem_fresh = [(7%positive, mkPluginState S754_nan S754_nan S754_nan 99)]
  /\ (exists m',
        plugin_process 7%N F32.one F32.zero F32.zero dt_1ms 1%N mem_live = Some (0, m')
        /\ cells m' !! 1%positive = Some (S754_finite false 16042858 (-26))
        /\ previous_output <$> heap m' !! 7%positive = Some (S754_finite false 16042858 (-26)))
  /\ (exists m1,
        plugin_create None 0 mem_fresh = Some (7%N, m1)
        /\ previous_output <$> heap m1 !! 7%positive = Some (S754_zero false)).
Proof.
  split; [reflexivity|]. split; [reflexivity|]. split; [reflexivity|].
  exact (process_writes_lowpass_output mem_live 7 1 default_state S754_nan
           F32.one F32.zero F32.zero dt_1ms None 0 mem_fresh 7
           (mkPluginState S754_nan S754_nan S754_nan 99) []
           eq_refl eq_refl eq_refl).
Defined.

(** C2. A null instance handle or a null output pointer makes [process]
    return a negative status and leave the whole memory (output cell and
    instance included) as it was; with both pointers non-null (and live) the
    status is 0 and the output cell holds the filter output. *)
Theorem process_null_checks
    (m : Mem) (state_ptr ffb_out : ptr)
    (ffb_in wheel_speed wheel_angle dt : spec_float) :
  (state_ptr = NULL \/ ffb_out = NULL ->
     exists s, plugin_process state_ptr ffb_in wheel_speed wheel_angle dt ffb_out m
               = Some (s, m) /\ s < 0)
  /\ (forall (a q : positive) (st : PluginState) (old : spec_float),
        state_ptr = Npos a -> ffb_out = Npos q ->
        heap m !! a = Some st -> cells m !! q = Some old ->
        exists m',
          plugin_process state_ptr ffb_in wheel_speed wheel_angle dt ffb_out m
          = Some (0, m')
          /\ cells m' !! q
             = Some (output_of (alpha_of (rc_of (cutoff_freq st)) dt) ffb_in
                       (previous_output st))).
Proof.
  split.
  - intros [-> | ->]; exists (-1); split; try lia.
    + apply process_null_state.
    + apply process_null_out.
  - intros a q st old -> -> Ha Hq.
    eexists. split; [apply (process_live a q st old); assumption|].
    cbn [cells]. rewrite lookup_insert_eq. reflexivity.
Qed.

Lemma process_null_checks_witness :
  (exists s, plugin_process NULL F32.one F32.zero F32.zero dt_1ms 1%N mem_live
             = Some (s, mem_live) /\ s < 0)
  /\ (exists s, plugin_process 7%N F32.one F32.zero F32.zero dt_1ms NULL mem_live
                = Some (s, mem_live) /\ s < 0)
  /\ heap mem_live !! 7%positive = Some default_state
  /\ cells mem_live !! 1%positive = Some S754_nan
  /\ (exists m',
        plugin_process 7%N F32.one F32.zero F32.zero dt_1ms 1%N mem_live = Some (0, m')
        /\ cells m' !! 1%positive = Some (S754_finite false 16042858 (-26))).
Proof.
  split; [|split; [|split; [reflexivity|split; [reflexivity|]]]].
  - exact (proj1 (process_null_checks mem_live NULL 1%N F32.one F32.zero F32.zero dt_1ms)
             (or_introl eq_refl)).
  - exact (proj1 (process_null_checks mem_live 7%N NULL F32.one F32.zero F32.zero dt_1ms)
             (or_intror eq_refl)).
  - exact (proj2 (process_null_checks mem_live 7%N 1%N F32.one F32.zero F32.zero dt_1ms)
             7%positive 1%positive default_state S754_nan
             eq_refl eq_refl eq_refl eq_refl).
Defined.

(** ** Creation, destruction and the descriptor *)

(** C6. [create] never aborts; it returns the null handle exactly when
    [malloc] does, leaving the memory as [malloc] left it; whatever the
    configuration bytes and length, a successful [create] yields an instance
    holding the defaults. *)
Theorem create_null_iff_alloc_fails
    (config : option (list Byte.byte)) (config_len : N) (m : Mem) :
  exists p m',
    plugin_create config config_len m = Some (p, m')
    /\ (p = NULL <-> malloc m = Some (NULL, m))
    /\ (p = NULL -> m' = m)
    /\ (forall a, p = Npos a -> heap m' !! a = Some default_state).
Proof.
  destruct (pool m) as [|[a junk] rest] eqn:Hpool.
  - exists NULL, m. split; [apply create_fail; assumption|].
    split; [|split; [reflexivity|discriminate]].
    unfold malloc. rewrite Hpool. tauto.
  - eexists (Npos a), _. split; [apply (create_ok _ _ _ _ _ _ Hpool)|].
    split; [|split; [discriminate|]].
    + unfold malloc. rewrite Hpool. split; discriminate.
    + intros a' [= <-]. cbn [heap]. apply lookup_insert_eq.
Qed.

Lemma create_null_iff_alloc_fails_witness :
  (exists m', plugin_create (Some [Byte.x7b; Byte.xff]) 2 mem_fresh = Some (7%N, m')
              /\ heap m' !! 7%positive = Some default_state)
  /\ plugin_create (Some [Byte.x7b; Byte.xff]) 2 mem_live = Some (NULL, mem_live).
Proof.
  split.
  - destruct (create_null_iff_alloc_fails (Some [Byte.x7b; Byte.xff]) 2 mem_fresh)
      as (p & m' & Hc & _ & _ & Hd).
    exists m'. assert (Hp : p = 7%N) by (vm_compute in Hc; congruence).
    split; [rewrite <- Hp; exact Hc | exact (Hd 7%positive Hp)].
  - destruct (create_null_iff_alloc_fails (Some [Byte.x7b; Byte.xff]) 2 mem_live)
      as (p & m' & Hc & Hn & Hm & _).
    assert (Hp : p = NULL) by (apply Hn; reflexivity).
    rewrite Hc, (Hm Hp), Hp. reflexivity.
Defined.

(** C7. The created state does not depend on the configuration: on one
    memory two calls to [create] with any two buffers are the same
    computation, and on any two memories successful calls produce the same
    instance state, [cutoff_freq = 50], [sample_rate = 1000],
    [previous_output = 0], [frame_count = 0]. *)
Theorem create_ignores_config
    (config1 config2 : option (list Byte.byte)) (len1 len2 : N)
    (m m1 m2 m1' m2' : Mem) (a1 a2 : positive) :
  plugin_create config1 len1 m1 = Some (Npos a1, m1') ->
  plugin_create config2 len2 m2 = Some (Npos a2, m2') ->
  plugin_create config1 len1 m = plugin_create config2 len2 m
  /\ heap m1' !! a1 = heap m2' !! a2
  /\ heap m1' !! a1
     = Some (mkPluginState (F32.of_Z 50) (F32.of_Z 1000) (S754_zero false) 0).
Proof.
  intros H1 H2. split; [reflexivity|].
  rewrite (create_some _ _ _ _ _ H1), (create_some _ _ _ _ _ H2). split; reflexivity.
Qed.

Lemma create_ignores_config_witness :
  plugin_create None 0 mem_fresh
  = Some (7%N, mkMem {[ 7%positive := default_state ]} {[ 1%positive := S754_nan ]} [])
  /\ plugin_create (Some [Byte.x7b; Byte.xff]) 2 mem_fresh
     = Some (7%N, mkMem {[ 7%positive := default_state ]} {[ 1%positive := S754_nan ]} [])
  /\ plugin_create None 0 mem_live = plugin_create (Some [Byte.x7b; Byte.xff]) 2 mem_live
  /\ ({[ 7%positive := default_state ]} : gmap positive PluginState) !! 7%positive
     = Some (mkPluginState (F32.of_Z 50) (F32.of_Z 1000) (S754_zero false) 0).
Proof.
  split; [reflexivity|]. split; [reflexivity|].
  destruct (create_ignores_config None (Some [Byte.x7b; Byte.xff]) 0 2
              mem_live mem_fresh mem_fresh _ _ 7 7 eq_refl eq_refl) as (H1 & _ & H3).
  split; [exact H1 | exact H3].
Defined.

(** C8. [get_info] needs no instance and touches no state: on every memory
    it returns the same record and leaves the memory alone; the record's
    [abi_version] is [PLUGIN_ABI_VERSION], that is 1. *)
Theorem get_info_constant (m1 m2 : Mem) :
  exists info,
    plugin_get_info m1 = Some (info, m1)
    /\ plugin_get_info m2 = Some (info, m2)
    /\ plugin_get_info (mkMem ∅ ∅ []) = Some (info, mkMem ∅ ∅ [])
    /\ abi_version info = PLUGIN_ABI_VERSION
    /\ abi_version info = 1.
Proof. eexists. repeat split. Qed.

(** C9. [destroy] on the null handle does nothing: it is defined, frees no
    block and returns the memory unchanged. *)
Theorem destroy_null_noop (m : Mem) :
  plugin_destroy NULL m = Some (tt, m).
Proof. reflexivity. Qed.

(** ** The scenario of the conformance test

    [create] on an empty configuration, then two ticks of one millisecond:
    an input of 1 gives about 0.239, and a following input of 0 lets the
    output decay to about 0.182. *)
Example end_to_end :
  (do p <- create get_plugin_vtable None 0;
   do s1 <- process get_plugin_vtable p F32.one F32.zero F32.zero dt_1ms 1%N;
   do s2 <- process get_plugin_vtable p F32.zero F32.zero F32.zero dt_1ms 1%N;
   run destroy get_plugin_vtable p;
   ret (p, s1, s2)) mem_fresh
  = Some ((7%N, 0, 0),
          mkMem ∅ {[ 1%positive := S754_finite false 12207698 (-26) ]}
            [(7%positive,
              mkPluginState (F32.of_Z 50) (F32.of_Z 1000)
                (S754_finite false 12207698 (-26)) 2)]).
Proof. vm_compute. reflexivity. Qed.

Example first_tick_output :
  output_of (alpha_of (rc_of (F32.of_Z 50)) dt_1ms) F32.one F32.zero
  = S754_finite false 16042858 (-26).
Proof. reflexivity. Qed.

(** [destroy] on a live handle, for contrast: the block leaves the heap and
    goes back to the allocator. *)
Lemma destroy_live a st m :
  heap m !! a = Some st ->
  plugin_destroy (Npos a) m
  = Some (tt, mkMem (delete a (heap m)) (cells m) ((a, st) :: pool m)).
Proof. intros H. unfold plugin_destroy, free. cbn. rewrite H. reflexivity. Qed.

(** ** Sequences of calls *)

Lemma uint64_incr_range x : 0 <= uint64_incr x < UINT64_MOD.
Proof. unfold uint64_incr, UINT64_MOD. apply Z.mod_pos_bound. lia. Qed.

(** What one call does to a given live instance [a], whatever the call. *)
Lemma do_call_effect (c : Call) (m m' : Mem) (s : Z) (a : positive) (st : PluginState) :
  heap m !! a = Some st ->
  do_call c m = Some (s, m') ->
  (s = 0 \/ s = -1)
  /\ (s = -1 -> m' = m)
  /\ heap m' !! a
     = Some (if N.eqb (c_state c) (Npos a) && Z.eqb s 0
             then step_state st (c_ffb_in c) (c_dt c) else st)
  /\ (forall p, is_live m' p = is_live m p)
  /\ (forall q, is_cell m' q = is_cell m q).
Proof.
  intros Ha. destruct c as [p x ws wa dt q]. unfold do_call. cbn [c_state c_ffb_in
    c_wheel_speed c_wheel_angle c_dt c_out].
  destruct p as [|b].
  { rewrite process_null_state. intros [= <- <-]. cbn. rewrite Ha. tauto. }
  destruct q as [|q].
  { rewrite process_null_out. intros [= <- <-].
    rewrite andb_false_r, Ha. tauto. }
  destruct (heap m !! b) as [stb|] eqn:Hb;
    [|unfold plugin_process, bind, load; cbn; rewrite Hb; discriminate].
  destruct (cells m !! q) as [old|] eqn:Hq;
    [|unfold plugin_process, bind, load, store, store_float; cbn;
      repeat (rewrite ?Hb, ?Hq, ?lookup_insert_eq; cbn [heap cells pool]);
      discriminate].
  rewrite (process_live b q stb old) by assumption. intros [= <- <-].
  split; [tauto|]. split; [discriminate|]. cbn [heap cells pool].
  split; [|split].
  - destruct (decide (b = a)) as [->|Hne].
    + rewrite lookup_insert_eq, N.eqb_refl. cbn. congruence.
    + rewrite lookup_insert_ne by assumption.
      destruct (N.eqb_spec (Npos b) (Npos a)) as [[= E]|_]; [contradiction|].
      exact Ha.
  - intros [|p]; [reflexivity|]. cbn.
    destruct (decide (b = p)) as [->|Hne].
    + rewrite lookup_insert_eq, Hb. reflexivity.
    + rewrite lookup_insert_ne by assumption. reflexivity.
  - intros [|p]; [reflexivity|]. cbn.
    destruct (decide (q = p)) as [->|Hne].
    + rewrite lookup_insert_eq, Hq. reflexivity.
    + rewrite lookup_insert_ne by assumption. reflexivity.
Qed.

(** A call whose non-null pointers are live is defined. *)
Lemma do_call_defined (c : Call) (m : Mem) :
  call_ok m c = true -> exists s m', do_call c m = Some (s, m').
Proof.
  destruct c as [p x ws wa dt q]. unfold call_ok, do_call. cbn [c_state c_ffb_in
    c_wheel_speed c_wheel_angle c_dt c_out].
  destruct p as [|b]; [intros _; rewrite process_null_state; eauto|].
  destruct q as [|q]; [intros _; rewrite process_null_out; eauto|].
  cbn [is_null is_live is_cell N.eqb orb].
  destruct (heap m !! b) as [stb|] eqn:Hb; [|discriminate].
  destruct (cells m !! q) as [old|] eqn:Hq; [|discriminate].
  intros _. rewrite (process_live b q stb old) by assumption. eauto.
Qed.

Lemma call_ok_stable (m m' : Mem) (c : Call) :
  (forall p, is_live m' p = is_live m p) ->
  (forall q, is_cell m' q = is_cell m q) ->
  call_ok m' c = call_ok m c.
Proof. intros Hl Hc. unfold call_ok. rewrite Hl, Hc. reflexivity. Qed.

(** The run of a list of defined calls, seen from one live instance:
    the two configuration fields never move and the frame counter advances,
    modulo [2^64], by the number of successful calls on that instance. *)
Lemma run_calls_effect (cs : list Call) :
  forall (m : Mem) (a : positive) (st : PluginState),
    forallb (call_ok m) cs = true ->
    heap m !! a = Some st ->
    exists ss m' st',
      run_calls cs m = Some (ss, m')
      /\ length ss = length cs
      /\ heap m' !! a = Some st'
      /\ cutoff_freq st' = cutoff_freq st
      /\ sample_rate st' = sample_rate st
      /\ 0 <= successes (Npos a) cs ss
      /\ (frame_count st' - (frame_count st + successes (Npos a) cs ss)) mod UINT64_MOD = 0
      /\ (successes (Npos a) cs ss = 0 -> frame_count st' = frame_count st)
      /\ (0 < successes (Npos a) cs ss -> 0 <= frame_count st' < UINT64_MOD).
Proof.
  induction cs as [|c cs IH]; intros m a st Hok Ha.
  - exists [], m, st. cbn. rewrite Ha, Z.add_0_r, Z.sub_diag.
    repeat split; try reflexivity; lia.
  - cbn [forallb] in Hok. apply andb_true_iff in Hok as [Hc Hcs].
    destruct (do_call_defined c m Hc) as (s & m1 & Hdo).
    destruct (do_call_effect c m m1 s a st Ha Hdo) as (Hs & _ & Ha1 & Hl & Hq).
    set (st1 := if N.eqb (c_state c) (Npos a) && Z.eqb s 0
                then step_state st (c_ffb_in c) (c_dt c) else st) in *.
    assert (Hcs1 : forallb (call_ok m1) cs = true).
    { rewrite <- Hcs. clear -Hl Hq. induction cs as [|c' cs' IHcs]; [reflexivity|].
      cbn [forallb]. rewrite IHcs, (call_ok_stable m m1 c' Hl Hq). reflexivity. }
    destruct (IH m1 a st1 Hcs1 Ha1)
      as (ss & m' & st' & Hrun & Hlen & Ha' & Hcf & Hsr & Hnn & Hfc & Hz & Hpos).
    exists (s :: ss), m', st'.
    cbn [run_calls]. unfold bind at 1. rewrite Hdo. unfold bind at 1. rewrite Hrun.
    cbn [ret length successes].
    split; [reflexivity|]. split; [congruence|]. split; [assumption|].
    subst st1. destruct (N.eqb (c_state c) (Npos a) && Z.eqb s 0) eqn:Hb;
      cbn [step_state cutoff_freq sample_rate frame_count] in *.
    + split; [assumption|]. split; [assumption|]. split; [lia|].
      pose proof (uint64_incr_range (frame_count st)) as Hr.
      split; [|split; [lia|]].
      * unfold uint64_incr in *.
        replace (frame_count st' - (frame_count st + (1 + successes (Npos a) cs ss)))
          with ((frame_count st' - ((frame_count st + 1) mod UINT64_MOD
                                     + successes (Npos a) cs ss))
                - UINT64_MOD * ((frame_count st + 1) / UINT64_MOD)).
        2:{ pose proof (Z.div_mod (frame_count st + 1) UINT64_MOD) as E.
            unfold UINT64_MOD in *. lia. }
        rewrite Zminus_mod, Hfc, Z.mul_comm, Z_mod_mult. reflexivity.
      * intros _. destruct (Z.eq_dec (successes (Npos a) cs ss) 0) as [E|E].
        -- rewrite (Hz E). exact Hr.
        -- apply Hpos. lia.
    + split; [assumption|]. split; [assumption|]. split; [lia|].
      rewrite Z.add_0_l. split; [assumption|]. split; assumption.
Qed.

(** When every call of the run passes the instance [a] and a non-null
    output pointer, every status is 0 and all the calls count. *)
Lemma run_calls_all_succeed (a : positive) (cs : list Call) :
  forall (m m' : Mem) (ss : list Z),
    Forall (fun c => c_state c = Npos a /\ c_out c <> NULL) cs ->
    run_calls cs m = Some (ss, m') ->
    successes (Npos a) cs ss = Z.of_nat (length cs).
Proof.
  induction cs as [|c cs IH]; intros m m' ss Hall Hrun.
  - reflexivity.
  - inversion Hall as [|c0 cs0 [Hst Hout] Hall']; subst.
    cbn [run_calls] in Hrun. unfold bind at 1 in Hrun.
    destruct (do_call c m) as [[s m1]|] eqn:Hdo; [|discriminate].
    unfold bind at 1 in Hrun.
    destruct (run_calls cs m1) as [[ss1 m2]|] eqn:Hrun1; [|discriminate].
    injection Hrun as <- <-.
    assert (Hs : s = 0).
    { destruct c as [p x ws wa dt q]. cbn in Hst, Hout. subst p.
      unfold do_call, plugin_process in Hdo. cbn in Hdo.
      destruct q as [|q]; [contradiction|]. cbn in Hdo.
      unfold bind, load, store, store_float, ret in Hdo.
      repeat match type of Hdo with
             | context [match ?x with _ => _ end] => destruct x; try discriminate
             end.
      congruence. }
    cbn [successes length]. rewrite Hst, N.eqb_refl, Hs. cbn [andb Z.eqb].
    rewrite (IH m1 m2 ss1 Hall' Hrun1). lia.
Qed.

Lemma forallb_repeat_true {A} (f : A -> bool) (x : A) (n : nat) :
  f x = true -> forallb f (repeat x n) = true.
Proof. intros H. induction n as [|n IH]; cbn; [reflexivity|]. rewrite H, IH. reflexivity. Qed.

Lemma Forall_repeat_same {A} (P : A -> Prop) (x : A) (n : nat) :
  P x -> Forall P (repeat x n).
Proof. intros H. induction n as [|n IH]; cbn; constructor; assumption. Qed.

Lemma congruent_in_range (x k : Z) :
  0 <= x < UINT64_MOD -> (x - k) mod UINT64_MOD = 0 -> x = k mod UINT64_MOD.
Proof.
  unfold UINT64_MOD. intros Hx H.
  apply Z.mod_divide in H; [|lia]. destruct H as [d Hd].
  replace k with (x + (- d) * 2 ^ 64) by lia.
  rewrite Z_mod_plus_full. symmetry. apply Z.mod_small. exact Hx.
Qed.

(** C3, as the code has it.  On a freshly created instance, after any run of
    defined calls the frame counter equals the number [n] of successful calls
    on the instance modulo [2^64], hence [n] itself as long as [n < 2^64];
    a successful call on the instance adds one modulo [2^64] and any other
    call leaves the counter alone. *)
Theorem frame_count_counts_successes
    (config : option (list Byte.byte)) (config_len : N)
    (m0 m1 : Mem) (a : positive) (cs : list Call) :
  plugin_create config config_len m0 = Some (Npos a, m1) ->
  forallb (call_ok m1) cs = true ->
  (exists ss m2 st2,
      run_calls cs m1 = Some (ss, m2)
      /\ heap m2 !! a = Some st2
      /\ frame_count st2 = successes (Npos a) cs ss mod 2 ^ 64
      /\ (successes (Npos a) cs ss < 2 ^ 64 ->
          frame_count st2 = successes (Npos a) cs ss))
  /\ (forall (m m' : Mem) (c : Call) (s : Z) (st : PluginState),
        heap m !! a = Some st ->
        do_call c m = Some (s, m') ->
        exists st',
          heap m' !! a = Some st'
          /\ frame_count st'
             = if N.eqb (c_state c) (Npos a) && Z.eqb s 0
               then (frame_count st + 1) mod 2 ^ 64
               else frame_count st).
Proof.
  intros Hcreate Hok.
  pose proof (create_some _ _ _ _ _ Hcreate) as Ha.
  split.
  - destruct (run_calls_effect cs m1 a default_state Hok Ha)
      as (ss & m2 & st2 & Hrun & _ & Ha2 & _ & _ & Hnn & Hfc & Hz & Hpos).
    exists ss, m2, st2. split; [assumption|]. split; [assumption|].
    cbn [default_state frame_count] in *. rewrite Z.add_0_l in Hfc.
    assert (E : frame_count st2 = successes (Npos a) cs ss mod 2 ^ 64).
    { destruct (Z.eq_dec (successes (Npos a) cs ss) 0) as [E0|E0].
      - rewrite (Hz E0), E0. reflexivity.
      - apply congruent_in_range; [apply Hpos; lia | exact Hfc]. }
    split; [exact E|]. intros Hlt. rewrite E. apply Z.mod_small. lia.
  - intros m m' c s st Hst Hdo.
    destruct (do_call_effect c m m' s a st Hst Hdo) as (_ & _ & Hst' & _).
    eexists. split; [exact Hst'|].
    destruct (N.eqb (c_state c) (Npos a) && Z.eqb s 0); reflexivity.
Qed.

Lemma frame_count_counts_successes_witness :
  plugin_create None 0 mem_fresh = Some (7%N, mem_live)
  /\ forallb (call_ok mem_live)
       [mkCall 7%N F32.one F32.zero F32.zero dt_1ms 1%N;
        mkCall 7%N F32.one F32.zero F32.zero dt_1ms NULL;
        mkCall 7%N F32.zero F32.zero F32.zero dt_1ms 1%N] = true
  /\ exists ss m2 st2,
      run_calls [mkCall 7%N F32.one F32.zero F32.zero dt_1ms 1%N;
                 mkCall 7%N F32.one F32.zero F32.zero dt_1ms NULL;
                 mkCall 7%N F32.zero F32.zero F32.zero dt_1ms 1%N] mem_live = Some (ss, m2)
      /\ ss = [0; -1; 0]
      /\ heap m2 !! 7%positive = Some st2
      /\ frame_count st2 = 2.
Proof.
  split; [reflexivity|]. split; [reflexivity|].
  destruct (proj1 (frame_count_counts_successes None 0 mem_fresh mem_live 7
              [mkCall 7%N F32.one F32.zero F32.zero dt_1ms 1%N;
               mkCall 7%N F32.one F32.zero F32.zero dt_1ms NULL;
               mkCall 7%N F32.zero F32.zero F32.zero dt_1ms 1%N] eq_refl eq_refl))
    as (ss & m2 & st2 & Hrun & Ha & Hfc & _).
  exists ss, m2, st2.
  assert (Hss : ss = [0; -1; 0]) by (vm_compute in Hrun; congruence).
  split; [exact Hrun|]. split; [exact Hss|]. split; [exact Ha|].
  rewrite Hfc, Hss. reflexivity.
Defined.

(** C3, as the specification words it ("the counter equals [n] for every natural
    number [n]"), fails at [n = 2^64]: after that many successful calls on a
    freshly created instance the 64-bit counter is back at 0. *)
Lemma frame_count_wraps_at_two64 :
  let c := mkCall 7%N F32.one F32.zero F32.zero dt_1ms 1%N in
  let cs := repeat c (Z.to_nat (2 ^ 64)) in
  plugin_create None 0 mem_fresh = Some (7%N, mem_live)
  /\ exists ss m2 st2,
      run_calls cs mem_live = Some (ss, m2)
      /\ successes 7%N cs ss = 2 ^ 64
      /\ heap m2 !! 7%positive = Some st2
      /\ frame_count st2 = 0
      /\ frame_count st2 <> successes 7%N cs ss.
Proof.
  intros c cs. split; [reflexivity|].
  assert (Hok : forallb (call_ok mem_live) cs = true)
    by (apply forallb_repeat_true; reflexivity).
  destruct (run_calls_effect cs mem_live 7 default_state Hok eq_refl)
    as (ss & m2 & st2 & Hrun & _ & Ha2 & _ & _ & _ & Hfc & _ & Hpos).
  assert (Hn : successes 7%N cs ss = 2 ^ 64).
  { rewrite (run_calls_all_succeed 7 cs mem_live m2 ss); [|
      apply Forall_repeat_same; split; [reflexivity|discriminate] | exact Hrun].
    unfold cs. rewrite repeat_length. apply Z2Nat.id. lia. }
  exists ss, m2, st2. split; [exact Hrun|]. split; [exact Hn|]. split; [exact Ha2|].
  rewrite Hn in *. cbn [default_state frame_count] in Hfc.
  assert (E : frame_count st2 = 0).
  { rewrite (congruent_in_range (frame_count st2) (0 + 2 ^ 64)); [reflexivity| |exact Hfc].
    apply Hpos. lia. }
  split; [exact E|]. rewrite E. lia.
Qed.

(** ** The smoothing factor *)

(** C4, as the code has it.  For every finite [dt > 0] and every
    [cutoff_freq > 0] the factor [alpha = dt / (rc + dt)] that [process]
    computes is a number, not below 0 and not above 1; it can be exactly 0.
    With the cutoff of 50 Hz that [create] installs it is strictly above 0
    for every finite [dt > 0]. *)
Theorem alpha_within_unit_interval (st : PluginState) (dt : spec_float) :
  F32.valid (cutoff_freq st) = true ->
  F32.valid dt = true ->
  F32.ltb F32.zero (cutoff_freq st) = true ->
  F32.ltb F32.zero dt = true ->
  F32.is_finite dt = true ->
  let rc := rc_of (cutoff_freq st) in
  let alpha := F32.div dt (F32.add rc dt) in
  F32.is_nan alpha = false
  /\ F32.leb F32.zero alpha = true
  /\ F32.leb alpha F32.one = true
  /\ (cutoff_freq st = F32.of_Z 50 -> F32.ltb F32.zero alpha = true).
Proof.
  intros Hvc Hvd Hc Hd Hfin rc alpha.
  pose proof (rc_of_nonneg (cutoff_freq st) Hvc Hc) as Hrc. fold rc in Hrc.
  destruct dt as [s|s| |[|] md ed]; try discriminate.
  assert (Hdef : cutoff_freq st = F32.of_Z 50 -> F32.ltb F32.zero alpha = true).
  { intros E. unfold alpha, rc. rewrite E. apply (alpha_positive_default md ed Hvd). }
  destruct (alpha_of_range rc md ed Hrc Hvd) as [E|(m & e & E & Hb & Hle)];
    unfold alpha_of in E; fold alpha in E; rewrite E in Hdef |- *.
  - repeat split. exact Hdef.
  - split; [reflexivity|]. split; [reflexivity|]. split; [|exact Hdef].
    apply (SFcompare_canonical_le F32.prec F32.emax m e 8388608 (-23));
      [assumption|reflexivity|rewrite F2R_one32; assumption].
Qed.

Lemma alpha_within_unit_interval_witness :
  F32.valid (cutoff_freq default_state) = true
  /\ F32.valid dt_1ms = true
  /\ F32.ltb F32.zero (cutoff_freq default_state) = true
  /\ F32.ltb F32.zero dt_1ms = true
  /\ F32.is_finite dt_1ms = true
  /\ F32.is_nan (F32.div dt_1ms (F32.add (rc_of (F32.of_Z 50)) dt_1ms)) = false
  /\ F32.leb F32.zero (F32.div dt_1ms (F32.add (rc_of (F32.of_Z 50)) dt_1ms)) = true
  /\ F32.leb (F32.div dt_1ms (F32.add (rc_of (F32.of_Z 50)) dt_1ms)) F32.one = true
  /\ (F32.of_Z 50 = F32.of_Z 50 ->
      F32.ltb F32.zero (F32.div dt_1ms (F32.add (rc_of (F32.of_Z 50)) dt_1ms)) = true).
Proof.
  do 5 (split; [reflexivity|]).
  exact (alpha_within_unit_interval default_state dt_1ms
           eq_refl eq_refl eq_refl eq_refl eq_refl).
Defined.

(** C4, as the specification words it ("strictly above 0"), fails: with a cutoff of
    [2^-5] Hz and the least positive [dt], [2^-149], the quotient underflows
    and [alpha] is exactly [+0].  With [dt = +inf], which is also above 0,
    [alpha] is NaN even for the default cutoff of 50 Hz. *)
Lemma alpha_underflows_to_zero :
  let c := S754_finite false 8388608 (-28) in
  let dt := S754_finite false 1 (-149) in
  F32.valid c = true /\ F32.valid dt = true
  /\ F32.ltb F32.zero c = true /\ F32.ltb F32.zero dt = true
  /\ F32.div dt (F32.add (rc_of c) dt) = S754_zero false
  /\ F32.ltb F32.zero (F32.div dt (F32.add (rc_of c) dt)) = false
  /\ F32.ltb F32.zero (S754_infinity false) = true
  /\ F32.div (S754_infinity false) (F32.add (rc_of (F32.of_Z 50)) (S754_infinity false))
     = S754_nan.
Proof. vm_compute. repeat split. Qed.

(** ** A tick of zero length *)

Lemma output_of_zero_alpha (s : bool) (ffb_in p : spec_float) :
  F32.is_finite ffb_in = true ->
  F32.valid p = true ->
  output_of (S754_zero s) ffb_in p = p
  \/ (F32.is_zero (output_of (S754_zero s) ffb_in p) = true /\ F32.is_zero p = true).
Proof.
  intros Hfin Hv. unfold output_of.
  change (F32.sub F32.one (S754_zero s)) with F32.one.
  rewrite (mul_one_l p Hv).
  assert (Ht : exists t, F32.mul (S754_zero s) ffb_in = S754_zero t).
  { destruct ffb_in as [sf|sf| |sf mf ef]; try discriminate; eexists; reflexivity. }
  destruct Ht as [t ->].
  destruct p as [sp|sp| |sp mp ep]; try (left; reflexivity).
  right. destruct t, sp; split; reflexivity.
Qed.

(** C5, as the code has it.  For a finite [cutoff_freq > 0] and a finite
    input, a call with [dt = 0] divides by [rc + dt = rc], which is not
    zero; [alpha] is 0; the value written to the output cell and kept as
    [previous_output] is the prior [previous_output] (up to the sign of a
    zero: [+0] may replace [-0]). *)
Theorem zero_dt_holds_output
    (m : Mem) (a q : positive) (st : PluginState)
    (old ffb_in wheel_speed wheel_angle dt : spec_float) :
  heap m !! a = Some st ->
  cells m !! q = Some old ->
  F32.valid (cutoff_freq st) = true ->
  F32.valid (previous_output st) = true ->
  F32.ltb F32.zero (cutoff_freq st) = true ->
  F32.is_finite (cutoff_freq st) = true ->
  F32.is_finite ffb_in = true ->
  F32.is_zero dt = true ->
  let rc := rc_of (cutoff_freq st) in
  let alpha := F32.div dt (F32.add rc dt) in
  let p := previous_output st in
  F32.is_zero (F32.add rc dt) = false
  /\ F32.is_nan (F32.add rc dt) = false
  /\ F32.is_zero alpha = true
  /\ exists m' y,
       plugin_process (Npos a) ffb_in wheel_speed wheel_angle dt (Npos q) m = Some (0, m')
       /\ cells m' !! q = Some y
       /\ previous_output <$> heap m' !! a = Some y
       /\ (y = p \/ (F32.is_zero y = true /\ F32.is_zero p = true)).
Proof.
  intros Ha Hq Hvc Hvp Hc Hfc Hfin Hdt rc alpha p.
  destruct dt as [s|s| |s md ed]; try discriminate.
  assert (Hrc : rc = S754_infinity false
                \/ exists mr er, rc = S754_finite false mr er).
  { unfold rc. destruct (cutoff_freq st) as [sc|sc| |[|] mc ec]; try discriminate.
    destruct (rc_of_finite_pos mc ec Hvc) as [H|(mr & er & H & _)]; eauto. }
  assert (Halpha : exists t, alpha = S754_zero t
                             /\ F32.is_zero (F32.add rc (S754_zero s)) = false
                             /\ F32.is_nan (F32.add rc (S754_zero s)) = false).
  { unfold alpha. destruct Hrc as [->|(mr & er & ->)]; eexists; repeat split. }
  destruct Halpha as (t & Halpha & Hnz & Hnn).
  split; [assumption|]. split; [assumption|]. split; [rewrite Halpha; reflexivity|].
  eexists _, _. split; [apply (process_live a q st old); assumption|].
  cbn [heap cells pool]. rewrite !lookup_insert_eq. split; [reflexivity|].
  split; [reflexivity|]. cbn [step_state previous_output].
  fold rc. unfold alpha_of. fold alpha. rewrite Halpha.
  apply output_of_zero_alpha; assumption.
Qed.

Lemma zero_dt_holds_output_witness :
  heap mem_live !! 7%positive = Some default_state
  /\ cells mem_live !! 1%positive = Some S754_nan
  /\ F32.valid (cutoff_freq default_state) = true
  /\ F32.valid (previous_output default_state) = true
  /\ F32.ltb F32.zero (cutoff_freq default_state) = true
  /\ F32.is_finite (cutoff_freq default_state) = true
  /\ F32.is_finite F32.one = true
  /\ F32.is_zero (S754_zero false) = true
  /\ F32.is_zero (F32.div (S754_zero false)
                    (F32.add (rc_of (F32.of_Z 50)) (S754_zero false))) = true
  /\ exists m' y,
       plugin_process 7%N F32.one F32.zero F32.zero (S754_zero false) 1%N mem_live
       = Some (0, m')
       /\ cells m' !! 1%positive = Some y
       /\ previous_output <$> heap m' !! 7%positive = Some y
       /\ (y = S754_zero false \/ (F32.is_zero y = true /\ F32.is_zero (S754_zero false) = true)).
Proof.
  do 9 (split; [reflexivity|]).
  exact (proj2 (proj2 (proj2 (zero_dt_holds_output mem_live 7 1 default_state S754_nan
           F32.one F32.zero F32.zero (S754_zero false)
           eq_refl eq_refl eq_refl eq_refl eq_refl eq_refl eq_refl eq_refl)))).
Defined.

(** C5, as the specification words it ("for every input"), fails on an infinite
    input: on a freshly created instance ([previous_output = 0],
    [cutoff_freq = 50]) a call with [ffb_in = +inf] and [dt = 0] computes
    [0 * inf + 1 * 0], writes NaN to the output cell and leaves NaN in
    [previous_output]. *)
Lemma zero_dt_infinite_input_gives_nan :
  exists m',
    plugin_process 7%N (S754_infinity false) F32.zero F32.zero (S754_zero false) 1%N mem_live
    = Some (0, m')
    /\ previous_output <$> heap mem_live !! 7%positive = Some (S754_zero false)
    /\ F32.ltb F32.zero (cutoff_freq default_state) = true
    /\ cells m' !! 1%positive = Some S754_nan
    /\ previous_output <$> heap m' !! 7%positive = Some S754_nan
    /\ F32.eqb S754_nan (S754_zero false) = false.
Proof.
  eexists. split; [apply (process_live 7 1 default_state S754_nan); reflexivity|].
  repeat split.
Qed.

(** ** What [process] leaves alone *)

(** C10. No call, successful or not, changes [cutoff_freq] or
    [sample_rate] of an instance, and a call that fails changes nothing at
    all.  Hence, from [create] on and through any run of calls,
    [cutoff_freq] is 50, which is positive, and for every [dt >= 0] the
    divisor [rc + dt] is strictly positive, in particular not zero. *)
Theorem process_keeps_configuration
    (config : option (list Byte.byte)) (config_len : N)
    (m0 m1 : Mem) (a : positive) (cs : list Call) (dt : spec_float) :
  plugin_create config config_len m0 = Some (Npos a, m1) ->
  forallb (call_ok m1) cs = true ->
  F32.valid dt = true ->
  F32.leb F32.zero dt = true ->
  (exists ss m2 st2,
      run_calls cs m1 = Some (ss, m2)
      /\ heap m2 !! a = Some st2
      /\ cutoff_freq st2 = F32.of_Z 50
      /\ sample_rate st2 = F32.of_Z 1000
      /\ F32.ltb F32.zero (cutoff_freq st2) = true
      /\ F32.ltb F32.zero (F32.add (rc_of (cutoff_freq st2)) dt) = true
      /\ F32.is_zero (F32.add (rc_of (cutoff_freq st2)) dt) = false)
  /\ (forall (m m' : Mem) (c : Call) (s : Z) (st : PluginState),
        heap m !! a = Some st ->
        do_call c m = Some (s, m') ->
        exists st',
          heap m' !! a = Some st'
          /\ cutoff_freq st' = cutoff_freq st
          /\ sample_rate st' = sample_rate st
          /\ (s <> 0 -> m' = m)).
Proof.
  intros Hcreate Hok Hvd Hd.
  pose proof (create_some _ _ _ _ _ Hcreate) as Ha.
  split.
  - destruct (run_calls_effect cs m1 a default_state Hok Ha)
      as (ss & m2 & st2 & Hrun & _ & Ha2 & Hcf & Hsr & _).
    exists ss, m2, st2. rewrite Hcf, Hsr. cbn [default_state cutoff_freq sample_rate].
    pose proof (rc_plus_dt_positive dt Hvd Hd) as Hpos.
    repeat (split; [assumption || reflexivity|]).
    destruct (F32.add (rc_of (F32.of_Z 50)) dt); try discriminate; reflexivity.
  - intros m m' c s st Hst Hdo.
    destruct (do_call_effect c m m' s a st Hst Hdo) as (Hs & Hfail & Hst' & _).
    eexists. split; [exact Hst'|].
    destruct (N.eqb (c_state c) (Npos a) && Z.eqb s 0);
      (split; [reflexivity|]); (split; [reflexivity|]);
      intros Hne; apply Hfail; lia.
Qed.

Lemma process_keeps_configuration_witness :
  plugin_create None 0 mem_fresh = Some (7%N, mem_live)
  /\ forallb (call_ok mem_live)
       [mkCall 7%N F32.one F32.zero F32.zero dt_1ms 1%N;
        mkCall NULL F32.one F32.zero F32.zero dt_1ms 1%N] = true
  /\ F32.valid (S754_zero true) = true
  /\ F32.leb F32.zero (S754_zero true) = true
  /\ exists ss m2 st2,
      run_calls [mkCall 7%N F32.one F32.zero F32.zero dt_1ms 1%N;
                 mkCall NULL F32.one F32.zero F32.zero dt_1ms 1%N] mem_live = Some (ss, m2)
      /\ heap m2 !! 7%positive = Some st2
      /\ cutoff_freq st2 = F32.of_Z 50
      /\ sample_rate st2 = F32.of_Z 1000
      /\ F32.ltb F32.zero (cutoff_freq st2) = true
      /\ F32.ltb F32.zero (F32.add (rc_of (cutoff_freq st2)) (S754_zero true)) = true
      /\ F32.is_zero (F32.add (rc_of (cutoff_freq st2)) (S754_zero true)) = false.
Proof.
  do 4 (split; [reflexivity|]).
  exact (proj1 (process_keeps_configuration None 0 mem_fresh mem_live 7
                  [mkCall 7%N F32.one F32.zero F32.zero dt_1ms 1%N;
                   mkCall NULL F32.one F32.zero F32.zero dt_1ms 1%N] (S754_zero true)
                  eq_refl eq_refl eq_refl eq_refl)).
Defined.

(** * Further properties of the plug-in *)

(** ** [process] is the real-time path: it neither allocates nor frees *)

Lemma do_call_frame (c : Call) (m m' : Mem) (s : Z) :
  do_call c m = Some (s, m') ->
  pool m' = pool m
  /\ dom (heap m') = dom (heap m)
  /\ dom (cells m') = dom (cells m)
  /\ (forall b, c_state c <> Npos b -> heap m' !! b = heap m !! b)
  /\ (forall q, c_out c <> Npos q -> cells m' !! q = cells m !! q).
Proof.
  destruct c as [p x ws wa dt q]. unfold do_call. cbn [c_state c_ffb_in
    c_wheel_speed c_wheel_angle c_dt c_out].
  destruct p as [|b].
  { rewrite process_null_state. intros [= <- <-]. auto. }
  destruct q as [|q].
  { rewrite process_null_out. intros [= <- <-]. auto. }
  destruct (heap m !! b) as [stb|] eqn:Hb;
    [|unfold plugin_process, bind, load; cbn; rewrite Hb; discriminate].
  destruct (cells m !! q) as [old|] eqn:Hq;
    [|unfold plugin_process, bind, load, store, store_float; cbn;
      repeat (rewrite ?Hb, ?Hq, ?lookup_insert_eq; cbn [heap cells pool]);
      discriminate].
  rewrite (process_live b q stb old) by assumption. intros [= <- <-].
  cbn [heap cells pool]. split; [reflexivity|].
  split; [apply dom_insert_lookup_L; eauto|].
  split; [apply dom_insert_lookup_L; eauto|].
  split; intros k Hk; apply lookup_insert_ne; congruence.
Qed.

Lemma run_calls_frame (cs : list Call) (m m' : Mem) (ss : list Z) :
  run_calls cs m = Some (ss, m') ->
  pool m' = pool m
  /\ dom (cells m') = dom (cells m)
  /\ (forall b, Forall (fun c => c_state c <> Npos b) cs -> heap m' !! b = heap m !! b).
Proof.
  revert m m' ss. induction cs as [|c cs IH]; intros m m' ss Hrun.
  - injection Hrun as <- <-. auto.
  - cbn [run_calls] in Hrun. unfold bind at 1 in Hrun.
    destruct (do_call c m) as [[s m1]|] eqn:Hdo; [|discriminate].
    unfold bind at 1 in Hrun.
    destruct (run_calls cs m1) as [[ss1 m2]|] eqn:Hrun1; [|discriminate].
    injection Hrun as <- <-.
    destruct (do_call_frame c m m1 s Hdo) as (Hp & _ & Hc & Hob & _).
    destruct (IH m1 m2 ss1 Hrun1) as (Hp' & Hc' & Hob').
    split; [congruence|]. split; [congruence|].
    intros b Hall. inversion Hall; subst. rewrite Hob' by assumption. auto.
Qed.

(** X1. A run of [process] calls, whatever their arguments and statuses,
    leaves the allocator's free list as it was, creates or removes no
    instance and no cell, returns one status per call, each 0 or -1, and
    does not touch the instances and cells that no call names. *)
Theorem process_allocates_nothing (cs : list Call) (m m' : Mem) (ss : list Z) :
  run_calls cs m = Some (ss, m') ->
  pool m' = pool m
  /\ dom (heap m') = dom (heap m)
  /\ dom (cells m') = dom (cells m)
  /\ length ss = length cs
  /\ Forall (fun s => s = 0 \/ s = -1) ss
  /\ (forall b, Forall (fun c => c_state c <> Npos b) cs -> heap m' !! b = heap m !! b)
  /\ (forall q, Forall (fun c => c_out c <> Npos q) cs -> cells m' !! q = cells m !! q).
Proof.
  revert m m' ss. induction cs as [|c cs IH]; intros m m' ss Hrun.
  - injection Hrun as <- <-. repeat split; auto.
  - cbn [run_calls] in Hrun. unfold bind at 1 in Hrun.
    destruct (do_call c m) as [[s m1]|] eqn:Hdo; [|discriminate].
    unfold bind at 1 in Hrun.
    destruct (run_calls cs m1) as [[ss1 m2]|] eqn:Hrun1; [|discriminate].
    injection Hrun as <- <-.
    destruct (do_call_frame c m m1 s Hdo) as (Hp & Hh & Hc & Hob & Hoq).
    destruct (IH m1 m2 ss1 Hrun1) as (Hp' & Hh' & Hc' & Hl & Hs & Hob' & Hoq').
    assert (Hst : s = 0 \/ s = -1).
    { destruct c as [p x ws wa dt q]. unfold do_call, plugin_process in Hdo.
      cbn [c_state c_ffb_in c_wheel_speed c_wheel_angle c_dt c_out] in Hdo.
      destruct (is_null p || is_null q); [injection Hdo as <- _; auto|].
      unfold bind, load, store, store_float, ret in Hdo.
      repeat match type of Hdo with
             | context [match ?x with _ => _ end] => destruct x; try discriminate
             end.
      injection Hdo as <- _. auto. }
    split; [congruence|]. split; [congruence|]. split; [congruence|].
    split; [cbn; congruence|]. split; [constructor; assumption|].
    split.
    + intros b Hall. inversion Hall; subst. rewrite Hob' by assumption. auto.
    + intros q Hall. inversion Hall; subst. rewrite Hoq' by assumption. auto.
Qed.

Lemma process_allocates_nothing_witness :
  exists ss m',
    run_calls [mkCall 7%N F32.one F32.zero F32.zero dt_1ms 1%N;
               mkCall 7%N F32.one F32.zero F32.zero dt_1ms NULL] mem_live
    = Some (ss, m')
    /\ pool m' = pool mem_live
    /\ dom (heap m') = dom (heap mem_live)
    /\ dom (cells m') = dom (cells mem_live)
    /\ length ss = 2%nat.
Proof.
  destruct (run_calls [mkCall 7%N F32.one F32.zero F32.zero dt_1ms 1%N;
                       mkCall 7%N F32.one F32.zero F32.zero dt_1ms NULL] mem_live)
    as [[ss m']|] eqn:Hrun; [|vm_compute in Hrun; discriminate].
  exists ss, m'. split; [reflexivity|].
  destruct (process_allocates_nothing _ _ _ _ Hrun) as (Hp & Hh & Hc & Hl & _).
  auto.
Defined.

(** ** A NaN never leaves the filter *)

Lemma output_of_nan (alpha x p : spec_float) :
  F32.is_nan alpha = true \/ F32.is_nan x = true \/ F32.is_nan p = true ->
  output_of alpha x p = S754_nan.
Proof.
  unfold output_of. intros [H|[H|H]].
  - destruct alpha; try discriminate. reflexivity.
  - destruct x; try discriminate. destruct alpha; reflexivity.
  - destruct p; try discriminate.
    destruct (F32.sub F32.one alpha); destruct (F32.mul alpha x); reflexivity.
Qed.

Lemma alpha_of_nan (rc dt : spec_float) :
  F32.is_nan dt = true -> alpha_of rc dt = S754_nan.
Proof. destruct dt; try discriminate. reflexivity. Qed.

(** X2. The code has no guard against NaN.  A successful call whose input,
    tick length or stored output is NaN writes NaN to the output cell and
    keeps NaN as [previous_output]; and once [previous_output] is NaN it is
    NaN after every further run of calls, whatever their arguments. *)
Theorem nan_is_absorbing
    (m : Mem) (a q : positive) (st : PluginState)
    (old ffb_in wheel_speed wheel_angle dt : spec_float) (cs : list Call) :
  heap m !! a = Some st ->
  cells m !! q = Some old ->
  forallb (call_ok m) cs = true ->
  (F32.is_nan ffb_in = true \/ F32.is_nan dt = true
   \/ F32.is_nan (previous_output st) = true ->
   exists m',
     plugin_process (Npos a) ffb_in wheel_speed wheel_angle dt (Npos q) m = Some (0, m')
     /\ cells m' !! q = Some S754_nan
     /\ previous_output <$> heap m' !! a = Some S754_nan)
  /\ (F32.is_nan (previous_output st) = true ->
      exists ss m' st',
        run_calls cs m = Some (ss, m')
        /\ heap m' !! a = Some st'
        /\ previous_output st' = S754_nan).
Proof.
  intros Ha Hq Hok. split.
  - intros Hnan. eexists. split; [apply (process_live a q st old); assumption|].
    cbn [heap cells pool]. rewrite !lookup_insert_eq.
    assert (E : output_of (alpha_of (rc_of (cutoff_freq st)) dt) ffb_in (previous_output st)
                = S754_nan).
    { apply output_of_nan. destruct Hnan as [H|[H|H]]; auto.
      left. rewrite (alpha_of_nan _ _ H). reflexivity. }
    split; rewrite <- E; reflexivity.
  - clear Hq. revert m st Ha Hok.
    induction cs as [|c cs IH]; intros m st Ha Hok Hnan.
    + exists [], m, st. split; [reflexivity|]. split; [assumption|].
      destruct (previous_output st); try discriminate. reflexivity.
    + cbn [forallb] in Hok. apply andb_true_iff in Hok as [Hc Hcs].
      destruct (do_call_defined c m Hc) as (s & m1 & Hdo).
      destruct (do_call_effect c m m1 s a st Ha Hdo) as (_ & _ & Ha1 & Hl & Hcell).
      assert (Hcs1 : forallb (call_ok m1) cs = true).
      { rewrite <- Hcs. clear -Hl Hcell. induction cs as [|c' cs' IHcs]; [reflexivity|].
        cbn [forallb]. rewrite IHcs, (call_ok_stable m m1 c' Hl Hcell). reflexivity. }
      edestruct (IH m1 _ Ha1 Hcs1) as (ss & m' & st' & Hrun & Ha' & Hn').
      { destruct (N.eqb (c_state c) (Npos a) && Z.eqb s 0); [|assumption].
        cbn [step_state previous_output]. rewrite output_of_nan; auto. }
      exists (s :: ss), m', st'. cbn [run_calls]. unfold bind at 1. rewrite Hdo.
      unfold bind at 1. rewrite Hrun. auto.
Qed.

Lemma nan_is_absorbing_witness :
  heap mem_live !! 7%positive = Some default_state
  /\ cells mem_live !! 1%positive = Some S754_nan
  /\ forallb (call_ok mem_live) [mkCall 7%N F32.one F32.zero F32.zero dt_1ms 1%N] = true
  /\ F32.is_nan S754_nan = true
  /\ exists m',
       plugin_process 7%N S754_nan F32.zero F32.zero dt_1ms 1%N mem_live = Some (0, m')
       /\ cells m' !! 1%positive = Some S754_nan
       /\ previous_output <$> heap m' !! 7%positive = Some S754_nan.
Proof.
  do 4 (split; [reflexivity|]).
  exact (proj1 (nan_is_absorbing mem_live 7 1 default_state S754_nan S754_nan
                  F32.zero F32.zero dt_1ms
                  [mkCall 7%N F32.one F32.zero F32.zero dt_1ms 1%N]
                  eq_refl eq_refl eq_refl) (or_introl eq_refl)).
Defined.

(** ** Instances do not see each other *)

(** X3. The plug-in keeps no state outside its instances: two calls on two
    different live instances, with two different output cells, can be made in
    either order; the statuses and the resulting memory are the same. *)
Theorem calls_on_distinct_instances_commute
    (m : Mem) (a b qa qb : positive) (sta stb : PluginState)
    (olda oldb xa wsa waa dta xb wsb wab dtb : spec_float) :
  a <> b -> qa <> qb ->
  heap m !! a = Some sta -> heap m !! b = Some stb ->
  cells m !! qa = Some olda -> cells m !! qb = Some oldb ->
  (do s1 <- plugin_process (Npos a) xa wsa waa dta (Npos qa);
   do s2 <- plugin_process (Npos b) xb wsb wab dtb (Npos qb);
   ret (s1, s2)) m
  = (do s2 <- plugin_process (Npos b) xb wsb wab dtb (Npos qb);
     do s1 <- plugin_process (Npos a) xa wsa waa dta (Npos qa);
     ret (s1, s2)) m.
Proof.
  intros Hab Hq Ha Hb Hqa Hqb. unfold bind at 1 3.
  rewrite (process_live a qa sta olda), (process_live b qb stb oldb) by assumption.
  unfold bind.
  rewrite (process_live b qb stb oldb), (process_live a qa sta olda);
    cbn [heap cells pool]; try (rewrite lookup_insert_ne by congruence; assumption).
  unfold ret. cbn [heap cells pool]. f_equal. f_equal. f_equal.
  - apply insert_insert_ne. congruence.
  - apply insert_insert_ne. congruence.
Qed.

Lemma calls_on_distinct_instances_commute_witness :
  7%positive <> 9%positive /\ 1%positive <> 2%positive
  /\ heap mem_two !! 7%positive = Some default_state
  /\ heap mem_two !! 9%positive = Some default_state
  /\ cells mem_two !! 1%positive = Some S754_nan
  /\ cells mem_two !! 2%positive = Some S754_nan
  /\ (do s1 <- plugin_process 7%N F32.one F32.zero F32.zero dt_1ms 1%N;
      do s2 <- plugin_process 9%N F32.zero F32.one F32.one dt_1ms 2%N;
      ret (s1, s2)) mem_two
     = (do s2 <- plugin_process 9%N F32.zero F32.one F32.one dt_1ms 2%N;
        do s1 <- plugin_process 7%N F32.one F32.zero F32.zero dt_1ms 1%N;
        ret (s1, s2)) mem_two.
Proof.
  assert (H79 : 7%positive <> 9%positive) by discriminate.
  assert (H12 : 1%positive <> 2%positive) by discriminate.
  split; [exact H79|]. split; [exact H12|]. do 4 (split; [reflexivity|]).
  exact (calls_on_distinct_instances_commute mem_two 7 9 1 2
           default_state default_state S754_nan S754_nan
           F32.one F32.zero F32.zero dt_1ms F32.zero F32.one F32.one dt_1ms
           H79 H12 eq_refl eq_refl eq_refl eq_refl).
Defined.

(** ** A whole life: [create], a run of [process], [destroy] *)

Lemma run_on_instance (cs : list Call) (m : Mem) (a : positive) (st : PluginState) :
  heap m !! a = Some st ->
  forallb (on_instance a) cs = true ->
  forallb (call_ok m) cs = true ->
  exists ss m' st',
    run_calls cs m = Some (ss, m')
    /\ heap m' = <[a := st']> (heap m)
    /\ pool m' = pool m
    /\ dom (cells m') = dom (cells m)
    /\ cutoff_freq st' = cutoff_freq st
    /\ sample_rate st' = sample_rate st
    /\ (frame_count st' - (frame_count st + successes (Npos a) cs ss)) mod UINT64_MOD = 0
    /\ (successes (Npos a) cs ss = 0 -> frame_count st' = frame_count st)
    /\ (0 < successes (Npos a) cs ss -> 0 <= frame_count st' < UINT64_MOD).
Proof.
  intros Ha Hon Hok.
  destruct (run_calls_effect cs m a st Hok Ha)
    as (ss & m' & st' & Hrun & _ & Ha' & Hcf & Hsr & _ & Hfc & Hz & Hpos).
  destruct (run_calls_frame cs m m' ss Hrun) as (Hp & Hc & Hob).
  exists ss, m', st'. split; [assumption|]. split; [|auto 10].
  apply map_eq. intros b. destruct (decide (a = b)) as [<-|Hne].
  - rewrite lookup_insert_eq. assumption.
  - rewrite lookup_insert_ne by assumption. apply Hob.
    clear -Hon Hne. induction cs as [|c cs IH]; constructor.
    + cbn [forallb] in Hon. apply andb_true_iff in Hon as [Hc _].
      unfold on_instance, is_null in Hc. apply orb_true_iff in Hc as [Hc|Hc];
        apply N.eqb_eq in Hc; rewrite Hc; [congruence|discriminate].
    + apply IH. cbn [forallb] in Hon. apply andb_true_iff in Hon as [_ H]. exact H.
Qed.

(** X4. Used as the vtable prescribes, an instance leaves nothing behind:
    when [malloc] hands out a block that is not in use, [create], then any
    run of [process] calls on the new handle (or on [NULL], with null or live
    output pointers), then [destroy], is defined, gives the heap back exactly
    as it was and returns the block to the allocator.  The block then holds
    the last state: the cutoff of 50 and the number of successful calls
    modulo [2^64]. *)
Theorem lifecycle_returns_the_block
    (m : Mem) (a : positive) (junk : PluginState) (rest : list (positive * PluginState))
    (config : option (list Byte.byte)) (config_len : N) (cs : list Call) :
  pool m = (a, junk) :: rest ->
  heap m !! a = None ->
  forallb (on_instance a) cs = true ->
  forallb (out_ok m) cs = true ->
  exists ss m' st,
    (do p <- create get_plugin_vtable config config_len;
     do ss <- run_calls cs;
     run destroy get_plugin_vtable p;
     ret (p, ss)) m = Some ((Npos a, ss), m')
    /\ heap m' = heap m
    /\ pool m' = (a, st) :: rest
    /\ dom (cells m') = dom (cells m)
    /\ cutoff_freq st = F32.of_Z 50
    /\ frame_count st = successes (Npos a) cs ss mod 2 ^ 64.
Proof.
  intros Hpool Hfree Hon Hout.
  set (m1 := mkMem (<[a := default_state]> (heap m)) (cells m) rest).
  assert (Ha1 : heap m1 !! a = Some default_state) by apply lookup_insert_eq.
  assert (Hok : forallb (call_ok m1) cs = true).
  { clear -Hon Hout. induction cs as [|c cs IH]; [reflexivity|].
    cbn [forallb] in *. apply andb_true_iff in Hon as [Hc Hon].
    apply andb_true_iff in Hout as [Ho Hout]. rewrite (IH Hon Hout), andb_true_r.
    unfold call_ok, on_instance, out_ok in *.
    assert (Hl : is_live m1 (Npos a) = true) by (cbn; rewrite lookup_insert_eq; reflexivity).
    assert (Hcell : is_cell m1 (c_out c) = is_cell m (c_out c)) by reflexivity.
    destruct (N.eqb_spec (c_state c) (Npos a)) as [E|E].
    - rewrite E, Hl, Hcell. cbn [is_null N.eqb orb andb]. exact Ho.
    - cbn [orb] in Hc. rewrite Hc. reflexivity. }
  destruct (run_on_instance cs m1 a default_state Ha1 Hon Hok)
    as (ss & m2 & st & Hrun & Hheap & Hp & Hc & Hcf & _ & Hfc & Hz & Hpos).
  exists ss, (mkMem (delete a (heap m2)) (cells m2) ((a, st) :: pool m2)), st.
  cbn [create destroy get_plugin_vtable]. unfold bind at 1.
  rewrite (create_ok _ _ _ _ _ _ Hpool). fold m1. unfold bind at 1. rewrite Hrun.
  assert (Ha2 : heap m2 !! a = Some st) by (rewrite Hheap; apply lookup_insert_eq).
  unfold bind at 1. rewrite (destroy_live a st m2 Ha2). unfold ret.
  cbn [heap cells pool]. split; [reflexivity|].
  split.
  { rewrite Hheap. cbn [m1 heap]. rewrite insert_insert_eq, delete_insert_eq.
    apply delete_id. assumption. }
  split; [rewrite Hp; reflexivity|]. split; [exact Hc|]. split; [exact Hcf|].
  cbn [default_state frame_count] in *. rewrite Z.add_0_l in Hfc.
  destruct (Z.eq_dec (successes (Npos a) cs ss) 0) as [E0|E0].
  - rewrite (Hz E0), E0. reflexivity.
  - apply congruent_in_range; [|exact Hfc]. apply Hpos.
    pose proof (run_calls_effect cs m1 a default_state Hok Ha1)
      as (ss' & m2' & st' & Hrun' & _ & _ & _ & _ & Hnn & _).
    rewrite Hrun in Hrun'. injection Hrun' as <- <-. lia.
Qed.

Lemma lifecycle_returns_the_block_witness :
  pool mem_fresh = [(7%positive, mkPluginState S754_nan S754_nan S754_nan 99)]
  /\ heap mem_fresh !! 7%positive = None
  /\ forallb (on_instance 7)
       [mkCall 7%N F32.one F32.zero F32.zero dt_1ms 1%N;
        mkCall NULL F32.one F32.zero F32.zero dt_1ms 1%N] = true
  /\ forallb (out_ok mem_fresh)
       [mkCall 7%N F32.one F32.zero F32.zero dt_1ms 1%N;
        mkCall NULL F32.one F32.zero F32.zero dt_1ms 1%N] = true
  /\ exists ss m' st,
      (do p <- create get_plugin_vtable None 0;
       do ss <- run_calls [mkCall 7%N F32.one F32.zero F32.zero dt_1ms 1%N;
                           mkCall NULL F32.one F32.zero F32.zero dt_1ms 1%N];
       run destroy get_plugin_vtable p;
       ret (p, ss)) mem_fresh = Some ((7%N, ss), m')
      /\ heap m' = heap mem_fresh
      /\ pool m' = [(7%positive, st)]
      /\ dom (cells m') = dom (cells mem_fresh)
      /\ cutoff_freq st = F32.of_Z 50
      /\ frame_count st
         = successes 7%N [mkCall 7%N F32.one F32.zero F32.zero dt_1ms 1%N;
                          mkCall NULL F32.one F32.zero F32.zero dt_1ms 1%N] ss mod 2 ^ 64.
Proof.
  do 4 (split; [reflexivity|]).
  exact (lifecycle_returns_the_block mem_fresh 7
           (mkPluginState S754_nan S754_nan S754_nan 99) [] None 0
           [mkCall 7%N F32.one F32.zero F32.zero dt_1ms 1%N;
            mkCall NULL F32.one F32.zero F32.zero dt_1ms 1%N]
           eq_refl eq_refl eq_refl eq_refl).
Defined.

(** ** The filter is odd: it treats the two directions of the force alike *)

Lemma binary_round_aux_opp prec emax s m e l :
  binary_round_aux prec emax (negb s) m e l
  = SFopp (binary_round_aux prec emax s m e l).
Proof.
  unfold binary_round_aux.
  destruct (shr_fexp prec emax m e l) as [mrs' e'].
  destruct (shr_fexp prec emax _ e' loc_Exact) as [mrs'' e''].
  destruct (shr_m mrs''); try reflexivity.
  destruct (Z.leb e'' (emax - prec)); reflexivity.
Qed.

Lemma binary_round_opp prec emax s m e :
  binary_round prec emax (negb s) m e = SFopp (binary_round prec emax s m e).
Proof.
  unfold binary_round. destruct (shl_align m e _) as [mz ez].
  apply binary_round_aux_opp.
Qed.

Lemma SFmul_opp_r prec emax x y :
  SFmul prec emax x (SFopp y) = SFopp (SFmul prec emax x y).
Proof.
  destruct x as [sx|sx| |sx mx ex], y as [sy|sy| |sy my ey]; cbn [SFmul SFopp];
    try reflexivity; try (destruct sx, sy; reflexivity).
  destruct sx, sy; cbn [xorb negb];
    first [apply (binary_round_aux_opp prec emax false)
          |apply (binary_round_aux_opp prec emax true)].
Qed.

Lemma SFadd_opp prec emax x y :
  same_value (SFadd prec emax (SFopp x) (SFopp y)) (SFopp (SFadd prec emax x y)).
Proof.
  destruct x as [sx|sx| |sx mx ex], y as [sy|sy| |sy my ey]; cbn [SFopp];
    try (left; reflexivity);
    try (destruct sx, sy; first [left; reflexivity|right; split; reflexivity]).
  unfold SFadd.
  set (A := Zpos (fst (shl_align mx ex (Z.min ex ey)))).
  set (B := Zpos (fst (shl_align my ey (Z.min ex ey)))).
  assert (E : cond_Zopp (negb sx) A + cond_Zopp (negb sy) B
              = - (cond_Zopp sx A + cond_Zopp sy B))
    by (destruct sx, sy; cbn [cond_Zopp negb]; lia).
  rewrite E. destruct (cond_Zopp sx A + cond_Zopp sy B) as [|z|z];
    cbn [Z.opp binary_normalize].
  - right. split; reflexivity.
  - left. apply (binary_round_opp prec emax false).
  - left. apply (binary_round_opp prec emax true).
Qed.

Lemma output_of_opp (alpha x p : spec_float) :
  same_value (output_of alpha (SFopp x) (SFopp p)) (SFopp (output_of alpha x p)).
Proof.
  unfold output_of, F32.add, F32.mul. rewrite !SFmul_opp_r. apply SFadd_opp.
Qed.

(** X5. Negating both the input and the stored output negates what
    [process] writes, the sign of a zero left aside: the filter has no bias
    towards one direction of the force. *)
Theorem filter_is_odd
    (m : Mem) (a q : positive) (st : PluginState)
    (old ffb_in wheel_speed wheel_angle dt : spec_float) :
  heap m !! a = Some st ->
  cells m !! q = Some old ->
  let m_neg := mkMem (<[a := negate_state st]> (heap m)) (cells m) (pool m) in
  exists m1 m2 y y',
    plugin_process (Npos a) ffb_in wheel_speed wheel_angle dt (Npos q) m = Some (0, m1)
    /\ plugin_process (Npos a) (SFopp ffb_in) wheel_speed wheel_angle dt (Npos q) m_neg
       = Some (0, m2)
    /\ cells m1 !! q = Some y
    /\ cells m2 !! q = Some y'
    /\ previous_output <$> heap m2 !! a = Some y'
    /\ same_value y' (SFopp y).
Proof.
  intros Ha Hq m_neg.
  eexists _, _, _, _.
  split; [apply (process_live a q st old); assumption|].
  split; [apply (process_live a q (negate_state st) old);
          [apply lookup_insert_eq|assumption]|].
  cbn [heap cells pool]. rewrite !lookup_insert_eq.
  split; [reflexivity|]. split; [reflexivity|]. split; [reflexivity|].
  apply output_of_opp.
Qed.

Lemma filter_is_odd_witness :
  heap mem_live !! 7%positive = Some default_state
  /\ cells mem_live !! 1%positive = Some S754_nan
  /\ exists m1 m2 y y',
      plugin_process 7%N F32.one F32.zero F32.zero dt_1ms 1%N mem_live = Some (0, m1)
      /\ plugin_process 7%N (SFopp F32.one) F32.zero F32.zero dt_1ms 1%N
           (mkMem (<[7%positive := negate_state default_state]> (heap mem_live))
                  (cells mem_live) (pool mem_live))
         = Some (0, m2)
      /\ cells m1 !! 1%positive = Some y
      /\ cells m2 !! 1%positive = Some y'
      /\ previous_output <$> heap m2 !! 7%positive = Some y'
      /\ same_value y' (SFopp y).
Proof.
  do 2 (split; [reflexivity|]).
  exact (filter_is_odd mem_live 7 1 default_state S754_nan
           F32.one F32.zero F32.zero dt_1ms eq_refl eq_refl).
Defined.

(** ** Every value the plug-in stores is a binary32 number *)

Section Validity.
Variables prec emax : Z.
Hypothesis prec_gt_0 : 0 < prec.
Hypothesis prec_lt_emax : prec < emax.

Lemma round_valid sx mx ex lx :
  0 <= mx -> ex <= fexp prec emax (Zdigits2 mx + ex) ->
  valid_binary prec emax (binary_round_aux prec emax sx mx ex lx) = true.
Proof.
  intros Hmx He.
  destruct (binary_round_aux_spec prec emax sx mx ex lx Hmx He) as (m2 & Hb & _ & Hres).
  set (e1 := fexp prec emax (Zdigits2 mx + ex)) in *.
  set (m1 := mx / 2 ^ (e1 - ex)) in *.
  cbv zeta in Hres. rewrite Hres. clear Hres.
  assert (P1 : 0 < 2 ^ (e1 - ex)) by (apply Z.pow_pos_nonneg; lia).
  assert (Hm1 : 0 <= m1) by (apply Z.div_pos; lia).
  destruct (Z_lt_le_dec 0 m2) as [Hm2|Hm2]; cycle 1.
  { replace m2 with 0 by lia. rewrite Z.div_0_l; [reflexivity|].
    apply Z.pow_nonzero; lia. }
  pose proof (round_second_shift prec emax prec_gt_0 mx ex m2 Hmx He Hb Hm2) as Hge.
  fold e1 in Hge.
  replace (Z.max e1 (fexp prec emax (Zdigits2 m2 + e1)))
    with (fexp prec emax (Zdigits2 m2 + e1)) by lia.
  set (e3 := fexp prec emax (Zdigits2 m2 + e1)) in *.
  set (m3 := m2 / 2 ^ (e3 - e1)) in *.
  assert (P3 : 0 < 2 ^ (e3 - e1)) by (apply Z.pow_pos_nonneg; lia).
  destruct (Z_lt_le_dec 0 m3) as [Hm3|Hm3]; cycle 1.
  { assert (0 <= m3) by (apply Z.div_pos; lia). replace m3 with 0 by lia. reflexivity. }
  pose proof (floor_canonical prec emax m2 e1 Hm2 Hge Hm3) as Hc3. fold e3 m3 in Hc3.
  rewrite finish_pos by assumption.
  destruct (Z.leb_spec e3 (emax - prec)) as [Hfin|Hinf]; [|reflexivity].
  cbn [valid_binary].
  apply bounded_intro; [rewrite Z2Pos.id by assumption; assumption|assumption].
Qed.

Lemma binary_round_valid s m e :
  valid_binary prec emax (binary_round prec emax s m e) = true.
Proof.
  destruct (binary_round_unfold prec emax s m e) as (mz & ez & -> & _ & Hp).
  apply round_valid; [lia|assumption].
Qed.

Lemma binary_normalize_valid z e s :
  valid_binary prec emax (binary_normalize prec emax z e s) = true.
Proof. destruct z; [reflexivity|apply binary_round_valid ..]. Qed.

Lemma SFadd_valid x y :
  valid_binary prec emax x = true -> valid_binary prec emax y = true ->
  valid_binary prec emax (SFadd prec emax x y) = true.
Proof.
  intros Hx Hy.
  destruct x as [sx|sx| |sx mx ex], y as [sy|sy| |sy my ey];
    try assumption; try reflexivity; try (destruct sx, sy; reflexivity).
  apply binary_normalize_valid.
Qed.

Lemma SFsub_valid x y :
  valid_binary prec emax x = true -> valid_binary prec emax y = true ->
  valid_binary prec emax (SFsub prec emax x y) = true.
Proof.
  intros Hx Hy.
  destruct x as [sx|sx| |sx mx ex], y as [sy|sy| |sy my ey];
    try assumption; try reflexivity; try (destruct sx, sy; reflexivity).
  apply binary_normalize_valid.
Qed.

Lemma SFmul_valid x y :
  valid_binary prec emax x = true -> valid_binary prec emax y = true ->
  valid_binary prec emax (SFmul prec emax x y) = true.
Proof.
  intros Hx Hy.
  destruct x as [sx|sx| |sx mx ex], y as [sy|sy| |sy my ey]; try reflexivity.
  cbn [valid_binary] in Hx, Hy.
  apply bounded_elim in Hx as [Hcx _]. apply bounded_elim in Hy as [Hcy _].
  unfold SFmul. apply round_valid; [lia|].
  apply mul_precondition; assumption.
Qed.

Lemma SFdiv_valid x y :
  valid_binary prec emax (SFdiv prec emax x y) = true.
Proof.
  destruct x as [sx|sx| |sx mx ex], y as [sy|sy| |sy my ey]; try reflexivity.
  unfold SFdiv. rewrite SFdiv_core_spec.
  destruct (div_precondition prec emax prec_gt_0 mx my ex ey) as [Hq Hpre].
  apply round_valid; assumption.
Qed.
End Validity.

Lemma rc_of_valid (c : spec_float) : F32.valid (rc_of c) = true.
Proof.
  unfold rc_of, F64.to_f32.
  destruct (F64.div _ _) as [s|s| |s m e]; try reflexivity.
  apply (binary_round_valid F32.prec F32.emax); reflexivity.
Qed.

Lemma alpha_of_valid (rc dt : spec_float) : F32.valid (alpha_of rc dt) = true.
Proof. apply (SFdiv_valid F32.prec F32.emax). reflexivity. Qed.

Lemma output_of_valid (alpha x p : spec_float) :
  F32.valid alpha = true -> F32.valid x = true -> F32.valid p = true ->
  F32.valid (output_of alpha x p) = true.
Proof.
  intros Ha Hx Hp. unfold output_of.
  apply (SFadd_valid F32.prec F32.emax); try reflexivity.
  - apply (SFmul_valid F32.prec F32.emax); try reflexivity; assumption.
  - apply (SFmul_valid F32.prec F32.emax); try reflexivity; [|assumption].
    apply (SFsub_valid F32.prec F32.emax); [reflexivity|reflexivity|assumption].
Qed.

Lemma step_state_valid (st : PluginState) (x dt : spec_float) :
  state_valid st -> F32.valid x = true ->
  state_valid (step_state st x dt).
Proof.
  intros (Hc & Hs & Hp & Hf) Hx. unfold state_valid, step_state.
  cbn [cutoff_freq sample_rate previous_output frame_count].
  split; [assumption|]. split; [assumption|].
  split; [|apply uint64_incr_range].
  apply output_of_valid; [apply alpha_of_valid|assumption|assumption].
Qed.

Lemma run_calls_valid (cs : list Call) :
  forall (m : Mem) (a : positive) (st : PluginState),
    forallb (call_ok m) cs = true ->
    forallb call_valid cs = true ->
    heap m !! a = Some st ->
    state_valid st ->
    exists ss m' st',
      run_calls cs m = Some (ss, m')
      /\ heap m' !! a = Some st'
      /\ state_valid st'.
Proof.
  induction cs as [|c cs IH]; intros m a st Hok Hval Ha Hst.
  - exists [], m, st. auto.
  - cbn [forallb] in Hok, Hval.
    apply andb_true_iff in Hok as [Hc Hcs]. apply andb_true_iff in Hval as [Hv Hvs].
    destruct (do_call_defined c m Hc) as (s & m1 & Hdo).
    destruct (do_call_effect c m m1 s a st Ha Hdo) as (_ & _ & Ha1 & Hl & Hcell).
    assert (Hcs1 : forallb (call_ok m1) cs = true).
    { rewrite <- Hcs. clear -Hl Hcell. induction cs as [|c' cs' IHcs]; [reflexivity|].
      cbn [forallb]. rewrite IHcs, (call_ok_stable m m1 c' Hl Hcell). reflexivity. }
    edestruct (IH m1 a _ Hcs1 Hvs Ha1) as (ss & m' & st' & Hrun & Ha' & Hst').
    { destruct (N.eqb (c_state c) (Npos a) && Z.eqb s 0); [|assumption].
      apply step_state_valid; [assumption|].
      unfold call_valid in Hv. apply andb_true_iff in Hv as [Hv _]. exact Hv. }
    exists (s :: ss), m', st'. cbn [run_calls]. unfold bind at 1. rewrite Hdo.
    unfold bind at 1. rewrite Hrun. auto.
Qed.

(** X6. From [create] on, and through any run of calls whose [float]
    arguments are binary32 numbers, the three [float] fields of the instance
    are binary32 numbers (possibly infinite or NaN) and [frame_count] stays
    within the range of [uint64_t]. *)
Theorem reachable_states_are_valid
    (config : option (list Byte.byte)) (config_len : N)
    (m0 m1 : Mem) (a : positive) (cs : list Call) :
  plugin_create config config_len m0 = Some (Npos a, m1) ->
  forallb (call_ok m1) cs = true ->
  forallb call_valid cs = true ->
  exists ss m2 st2,
    run_calls cs m1 = Some (ss, m2)
    /\ heap m2 !! a = Some st2
    /\ F32.valid (cutoff_freq st2) = true
    /\ F32.valid (sample_rate st2) = true
    /\ F32.valid (previous_output st2) = true
    /\ 0 <= frame_count st2 < 2 ^ 64.
Proof.
  intros Hcreate Hok Hval.
  pose proof (create_some _ _ _ _ _ Hcreate) as Ha.
  destruct (run_calls_valid cs m1 a default_state Hok Hval Ha)
    as (ss & m2 & st2 & Hrun & Ha2 & Hst).
  { repeat split; reflexivity. }
  exists ss, m2, st2. split; [assumption|]. split; [assumption|]. exact Hst.
Qed.

Lemma reachable_states_are_valid_witness :
  plugin_create None 0 mem_fresh = Some (7%N, mem_live)
  /\ forallb (call_ok mem_live)
       [mkCall 7%N F32.one F32.zero F32.zero (S754_infinity false) 1%N] = true
  /\ forallb call_valid
       [mkCall 7%N F32.one F32.zero F32.zero (S754_infinity false) 1%N] = true
  /\ exists ss m2 st2,
      run_calls [mkCall 7%N F32.one F32.zero F32.zero (S754_infinity false) 1%N] mem_live
      = Some (ss, m2)
      /\ heap m2 !! 7%positive = Some st2
      /\ F32.valid (cutoff_freq st2) = true
      /\ F32.valid (sample_rate st2) = true
      /\ F32.valid (previous_output st2) = true
      /\ 0 <= frame_count st2 < 2 ^ 64.
Proof.
  do 3 (split; [reflexivity|]).
  exact (reachable_states_are_valid None 0 mem_fresh mem_live 7
           [mkCall 7%N F32.one F32.zero F32.zero (S754_infinity false) 1%N]
           eq_refl eq_refl eq_refl).
Defined.

(** ** The first step from rest does not overshoot *)

Lemma sub_one_alpha_finite (alpha : spec_float) :
  alpha = S754_zero false
  \/ (exists m e, alpha = S754_finite false m e
                  /\ bounded F32.prec F32.emax m e = true
                  /\ (F2R (Zpos m) e <= 1)%R) ->
  F32.is_finite (F32.sub F32.one alpha) = true.
Proof.
  intros [->|(m & e & -> & Hb & Hle)]; [reflexivity|].
  unfold F32.sub, F32.one, SFsub. cbn [cond_Zopp].
  set (ez := Z.min (-23) e).
  pose proof (shl_align_spec 8388608 (-23) ez) as [_ HA].
  pose proof (shl_align_spec m e ez) as [_ HB].
  replace (Z.min (-23) ez) with ez in HA by lia.
  replace (Z.min e ez) with ez in HB by lia.
  set (A := fst (shl_align 8388608 (-23) ez)) in *.
  set (B := fst (shl_align m e ez)) in *.
  assert (HF : F2R (Zpos A - Zpos B) ez = (1 - F2R (Zpos m) e)%R).
  { rewrite <- F2R_one32.
    rewrite (F2R_change_exp 8388608 (-23) ez), (F2R_change_exp (Zpos m) e ez) by lia.
    rewrite <- HA, <- HB. unfold F2R. rewrite minus_IZR. ring. }
  destruct (Zpos A - Zpos B) as [|z|z] eqn:Hz; cbn [binary_normalize].
  - reflexivity.
  - destruct (binary_round_upper F32.prec F32.emax ltac:(reflexivity) false z ez
                8388608 (-23)) as [E|(m' & e' & E & _)];
      [reflexivity|reflexivity|discriminate| | |].
    + rewrite HF, F2R_one32. pose proof (F2R_pos (Zpos m) e ltac:(lia)). lra.
    + rewrite E. reflexivity.
    + rewrite E. reflexivity.
  - exfalso. assert (F2R (Zneg z) ez < 0)%R; [|lra].
    unfold F2R. pose proof (bpow_pos ez).
    assert (IZR (Zneg z) < 0)%R by (apply IZR_lt; lia). nra.
Qed.

Lemma output_from_rest (alpha x p : spec_float) :
  alpha = S754_zero false
  \/ (exists m e, alpha = S754_finite false m e
                  /\ bounded F32.prec F32.emax m e = true
                  /\ (F2R (Zpos m) e <= 1)%R) ->
  F32.valid x = true -> F32.leb F32.zero x = true -> F32.is_finite x = true ->
  F32.is_zero p = true ->
  F32.leb F32.zero (output_of alpha x p) = true
  /\ F32.leb (output_of alpha x p) x = true.
Proof.
  intros Halpha Hvx Hx Hfx Hp.
  pose proof (sub_one_alpha_finite alpha Halpha) as Hsub.
  destruct p as [sp|sp| |sp mp ep]; try discriminate. clear Hp.
  unfold output_of.
  assert (Ht2 : exists s, F32.mul (F32.sub F32.one alpha) (S754_zero sp) = S754_zero s).
  { destruct (F32.sub F32.one alpha); try discriminate; eexists; reflexivity. }
  destruct Ht2 as (s2 & ->).
  destruct x as [sx|sx| |[|] mx ex]; try discriminate.
  - (* no input: the output stays zero *)
    assert (Ht1 : exists s, F32.mul alpha (S754_zero sx) = S754_zero s).
    { destruct Halpha as [->|(m & e & -> & _)]; eexists; reflexivity. }
    destruct Ht1 as (s1 & ->). destruct s1, s2; split; reflexivity.
  - destruct Halpha as [->|(m & e & -> & Hb & Hle)].
    + destruct s2; split; reflexivity.
    + cbn [F32.valid valid_binary] in Hvx.
      pose proof (F2R_pos (Zpos mx) ex ltac:(lia)) as Hxpos.
      destruct (SFmul_upper F32.prec F32.emax ltac:(reflexivity) ltac:(reflexivity)
                  false false m e mx ex (Zpos mx) ex)
        as [E|(m' & e' & E & Hb' & Hle')]; try assumption.
      * lia.
      * apply bounded_elim in Hvx as [Hc _]. exact Hc.
      * apply bounded_elim in Hvx as [_ He]. exact He.
      * nra.
      * unfold F32.mul. rewrite E. destruct s2; split; reflexivity.
      * unfold F32.mul. rewrite E. cbn [xorb F32.add SFadd].
        split; [reflexivity|].
        apply (SFcompare_canonical_le F32.prec F32.emax); assumption.
Qed.

(** X7. An instance at rest ([previous_output] zero, as [create] leaves it)
    that receives a finite input [x >= 0] during a finite tick [dt > 0]
    writes an output [y] with [0 <= y <= x]: the first step never overshoots
    the input, and without input the filter stays at rest. *)
Theorem first_step_does_not_overshoot
    (m : Mem) (a q : positive) (st : PluginState)
    (old ffb_in wheel_speed wheel_angle dt : spec_float) :
  heap m !! a = Some st ->
  cells m !! q = Some old ->
  F32.valid (cutoff_freq st) = true ->
  F32.ltb F32.zero (cutoff_freq st) = true ->
  F32.is_zero (previous_output st) = true ->
  F32.valid ffb_in = true ->
  F32.leb F32.zero ffb_in = true ->
  F32.is_finite ffb_in = true ->
  F32.valid dt = true ->
  F32.ltb F32.zero dt = true ->
  F32.is_finite dt = true ->
  exists m' y,
    plugin_process (Npos a) ffb_in wheel_speed wheel_angle dt (Npos q) m = Some (0, m')
    /\ cells m' !! q = Some y
    /\ previous_output <$> heap m' !! a = Some y
    /\ F32.leb F32.zero y = true
    /\ F32.leb y ffb_in = true.
Proof.
  intros Ha Hq Hvc Hc Hp Hvx Hx Hfx Hvd Hd Hfd.
  eexists _, _. split; [apply (process_live a q st old); assumption|].
  cbn [heap cells pool]. rewrite !lookup_insert_eq.
  split; [reflexivity|]. split; [reflexivity|].
  cbn [step_state previous_output].
  apply output_from_rest; try assumption.
  pose proof (rc_of_nonneg (cutoff_freq st) Hvc Hc) as Hrc.
  destruct dt as [s|s| |[|] md ed]; try discriminate.
  destruct (alpha_of_range _ md ed Hrc Hvd) as [E|(m0 & e0 & E & Hb & Hle)];
    [left; exact E|right; eauto].
Qed.

Lemma first_step_does_not_overshoot_witness :
  heap mem_live !! 7%positive = Some default_state
  /\ cells mem_live !! 1%positive = Some S754_nan
  /\ F32.valid (cutoff_freq default_state) = true
  /\ F32.ltb F32.zero (cutoff_freq default_state) = true
  /\ F32.is_zero (previous_output default_state) = true
  /\ F32.valid F32.one = true
  /\ F32.leb F32.zero F32.one = true
  /\ F32.is_finite F32.one = true
  /\ F32.valid dt_1ms = true
  /\ F32.ltb F32.zero dt_1ms = true
  /\ F32.is_finite dt_1ms = true
  /\ exists m' y,
      plugin_process 7%N F32.one F32.zero F32.zero dt_1ms 1%N mem_live = Some (0, m')
      /\ cells m' !! 1%positive = Some y
      /\ previous_output <$> heap m' !! 7%positive = Some y
      /\ F32.leb F32.zero y = true
      /\ F32.leb y F32.one = true.
Proof.
  do 11 (split; [reflexivity|]).
  exact (first_step_does_not_overshoot mem_live 7 1 default_state S754_nan
           F32.one F32.zero F32.zero dt_1ms
           eq_refl eq_refl eq_refl eq_refl eq_refl eq_refl eq_refl eq_refl
           eq_refl eq_refl eq_refl).
Defined.

(** ** A negative tick length is not rejected *)

Lemma add_opp_self (m : positive) (e : Z) :
  F32.add (S754_finite false m e) (S754_finite true m e) = S754_zero false.
Proof.
  unfold F32.add, SFadd. rewrite Z.min_id. unfold shl_align. rewrite Z.sub_diag.
  cbn [fst cond_Zopp]. change (Zpos m + - Zpos m) with (Z.pos_sub m m).
  rewrite Z.pos_sub_diag. reflexivity.
Qed.

Lemma output_of_infinite_alpha (x p : spec_float) :
  F32.is_finite (output_of (S754_infinity true) x p) = false.
Proof.
  unfold output_of. change (F32.sub F32.one (S754_infinity true)) with (S754_infinity false).
  destruct x as [sx|sx| |sx mx ex], p as [sp|sp| |sp mp ep];
    try reflexivity; destruct sx, sp; reflexivity.
Qed.

(** X8. [process] checks its pointers only.  When [dt] is the negative of
    the time constant [rc], the divisor [rc + dt] is zero, the division gives
    [alpha = -inf], and the call still returns status 0 while it writes an
    infinity or a NaN to the output cell and to [previous_output], whatever
    the input and the stored output. *)
Theorem negative_tick_divides_by_zero
    (m : Mem) (a q : positive) (st : PluginState)
    (old ffb_in wheel_speed wheel_angle : spec_float) (mr : positive) (er : Z) :
  heap m !! a = Some st ->
  cells m !! q = Some old ->
  rc_of (cutoff_freq st) = S754_finite false mr er ->
  let dt := S754_finite true mr er in
  F32.add (rc_of (cutoff_freq st)) dt = S754_zero false
  /\ F32.div dt (F32.add (rc_of (cutoff_freq st)) dt) = S754_infinity true
  /\ exists m' y,
       plugin_process (Npos a) ffb_in wheel_speed wheel_angle dt (Npos q) m = Some (0, m')
       /\ cells m' !! q = Some y
       /\ previous_output <$> heap m' !! a = Some y
       /\ F32.is_finite y = false.
Proof.
  intros Ha Hq Hrc dt.
  assert (Hsum : F32.add (rc_of (cutoff_freq st)) dt = S754_zero false)
    by (rewrite Hrc; apply add_opp_self).
  assert (Halpha : alpha_of (rc_of (cutoff_freq st)) dt = S754_infinity true)
    by (unfold alpha_of; rewrite Hsum; reflexivity).
  split; [exact Hsum|]. split; [exact Halpha|].
  eexists _, _. split; [apply (process_live a q st old); assumption|].
  cbn [heap cells pool]. rewrite !lookup_insert_eq.
  split; [reflexivity|]. split; [reflexivity|].
  cbn [step_state previous_output]. rewrite Halpha. apply output_of_infinite_alpha.
Qed.

Lemma negative_tick_divides_by_zero_witness :
  heap mem_live !! 7%positive = Some default_state
  /\ cells mem_live !! 1%positive = Some S754_nan
  /\ rc_of (cutoff_freq default_state) = S754_finite false 13671306 (-32)
  /\ F32.add (rc_of (cutoff_freq default_state)) (S754_finite true 13671306 (-32))
     = S754_zero false
  /\ F32.div (S754_finite true 13671306 (-32))
       (F32.add (rc_of (cutoff_freq default_state)) (S754_finite true 13671306 (-32)))
     = S754_infinity true
  /\ exists m' y,
       plugin_process 7%N F32.one F32.zero F32.zero (S754_finite true 13671306 (-32)) 1%N
         mem_live = Some (0, m')
       /\ cells m' !! 1%positive = Some y
       /\ previous_output <$> heap m' !! 7%positive = Some y
       /\ F32.is_finite y = false.
Proof.
  do 3 (split; [reflexivity|]).
  exact (negative_tick_divides_by_zero mem_live 7 1 default_state S754_nan
           F32.one F32.zero F32.zero 13671306 (-32) eq_refl eq_refl eq_refl).
Defined.

(** ** Without input the output decays *)

Lemma sub_one_alpha_range (alpha : spec_float) :
  alpha = S754_zero false
  \/ (exists m e, alpha = S754_finite false m e
                  /\ bounded F32.prec F32.emax m e = true
                  /\ (F2R (Zpos m) e <= 1)%R) ->
  below32 1 (F32.sub F32.one alpha).
Proof.
  intros [->|(m & e & -> & Hb & Hle)].
  { right. exists 8388608%positive, (-23). rewrite F2R_one32.
    split; [reflexivity|]. split; [reflexivity|lra]. }
  unfold F32.sub, F32.one, SFsub. cbn [cond_Zopp].
  set (ez := Z.min (-23) e).
  pose proof (shl_align_spec 8388608 (-23) ez) as [_ HA].
  pose proof (shl_align_spec m e ez) as [_ HB].
  replace (Z.min (-23) ez) with ez in HA by lia.
  replace (Z.min e ez) with ez in HB by lia.
  set (A := fst (shl_align 8388608 (-23) ez)) in *.
  set (B := fst (shl_align m e ez)) in *.
  assert (HF : F2R (Zpos A - Zpos B) ez = (1 - F2R (Zpos m) e)%R).
  { rewrite <- F2R_one32.
    rewrite (F2R_change_exp 8388608 (-23) ez), (F2R_change_exp (Zpos m) e ez) by lia.
    rewrite <- HA, <- HB. unfold F2R. rewrite minus_IZR. ring. }
  destruct (Zpos A - Zpos B) as [|z|z] eqn:Hz; cbn [binary_normalize].
  - left. eexists. reflexivity.
  - destruct (binary_round_upper F32.prec F32.emax ltac:(reflexivity) false z ez
                8388608 (-23)) as [E|(m' & e' & E & Hb' & Hle')];
      [reflexivity|reflexivity|discriminate| | |].
    + rewrite HF, F2R_one32. pose proof (F2R_pos (Zpos m) e ltac:(lia)). lra.
    + left. eexists. exact E.
    + right. exists m', e'. rewrite F2R_one32 in Hle'. auto.
  - exfalso. assert (F2R (Zneg z) ez < 0)%R; [|lra].
    unfold F2R. pose proof (bpow_pos ez).
    assert (IZR (Zneg z) < 0)%R by (apply IZR_lt; lia). nra.
Qed.

Lemma output_decay (alpha p : spec_float) (sx : bool) (u : R) :
  alpha = S754_zero false
  \/ (exists m e, alpha = S754_finite false m e
                  /\ bounded F32.prec F32.emax m e = true
                  /\ (F2R (Zpos m) e <= 1)%R) ->
  below32 u p ->
  below32 u (output_of alpha (S754_zero sx) p).
Proof.
  intros Halpha Hp. pose proof (sub_one_alpha_range alpha Halpha) as Hs.
  unfold output_of.
  assert (Ht1 : exists s, F32.mul alpha (S754_zero sx) = S754_zero s).
  { destruct Halpha as [->|(m & e & -> & _)]; eexists; reflexivity. }
  destruct Ht1 as (s1 & ->).
  assert (Ht2 : below32 u (F32.mul (F32.sub F32.one alpha) p)).
  { destruct Hs as [(s & ->)|(ms & es & -> & Hbs & Hles)];
      destruct Hp as [(sp & ->)|(mp & ep & -> & Hbp & Hlep)];
      try (left; eexists; reflexivity).
    pose proof (F2R_pos (Zpos mp) ep ltac:(lia)) as Hppos.
    pose proof (bounded_elim _ _ _ _ Hbp) as [Hcp Hep].
    destruct (SFmul_upper F32.prec F32.emax ltac:(reflexivity) ltac:(reflexivity)
                false false ms es mp ep (Zpos mp) ep)
      as [E|(m' & e' & E & Hb' & Hle')]; try assumption; [lia|nra| |].
    - left. eexists. exact E.
    - right. exists m', e'. split; [exact E|]. split; [assumption|lra]. }
  destruct Ht2 as [(s2 & ->)|(m2 & e2 & -> & Hb2 & Hle2)].
  - left. destruct s1, s2; eexists; reflexivity.
  - right. exists m2, e2. auto.
Qed.

Lemma below32_leb (p0 y : spec_float) :
  F32.valid p0 = true -> F32.leb F32.zero p0 = true -> F32.is_finite p0 = true ->
  below32 (value32 p0) y ->
  F32.leb F32.zero y = true /\ F32.leb y p0 = true.
Proof.
  intros Hv Hp Hf [(s & ->)|(m & e & -> & Hb & Hle)].
  - destruct p0 as [s0|s0| |[|] m0 e0]; try discriminate; split; reflexivity.
  - split; [reflexivity|].
    destruct p0 as [s0|s0| |[|] m0 e0]; try discriminate; cbn [value32] in Hle.
    + pose proof (F2R_pos (Zpos m) e ltac:(lia)). lra.
    + apply (SFcompare_canonical_le F32.prec F32.emax); assumption.
Qed.

Lemma below32_self (p0 : spec_float) :
  F32.valid p0 = true -> F32.leb F32.zero p0 = true -> F32.is_finite p0 = true ->
  below32 (value32 p0) p0.
Proof.
  intros Hv Hp Hf. destruct p0 as [s0|s0| |[|] m0 e0]; try discriminate.
  - left. eexists. reflexivity.
  - right. exists m0, e0. cbn [value32]. split; [reflexivity|]. split; [assumption|lra].
Qed.

Lemma run_quiet (cs : list Call) (u : R) :
  forall (m : Mem) (a : positive) (st : PluginState),
    forallb (call_ok m) cs = true ->
    forallb quiet_call cs = true ->
    heap m !! a = Some st ->
    F32.valid (cutoff_freq st) = true ->
    F32.ltb F32.zero (cutoff_freq st) = true ->
    below32 u (previous_output st) ->
    exists ss m' st',
      run_calls cs m = Some (ss, m')
      /\ heap m' !! a = Some st'
      /\ below32 u (previous_output st').
Proof.
  induction cs as [|c cs IH]; intros m a st Hok Hquiet Ha Hvc Hc Hbelow.
  - exists [], m, st. auto.
  - cbn [forallb] in Hok, Hquiet.
    apply andb_true_iff in Hok as [Hcok Hcs]. apply andb_true_iff in Hquiet as [Hq Hqs].
    destruct (do_call_defined c m Hcok) as (s & m1 & Hdo).
    destruct (do_call_effect c m m1 s a st Ha Hdo) as (_ & _ & Ha1 & Hl & Hcell).
    assert (Hcs1 : forallb (call_ok m1) cs = true).
    { rewrite <- Hcs. clear -Hl Hcell. induction cs as [|c' cs' IHcs]; [reflexivity|].
      cbn [forallb]. rewrite IHcs, (call_ok_stable m m1 c' Hl Hcell). reflexivity. }
    edestruct (IH m1 a _ Hcs1 Hqs Ha1) as (ss & m' & st' & Hrun & Ha' & Hst').
    4:{ exists (s :: ss), m', st'. cbn [run_calls]. unfold bind at 1. rewrite Hdo.
        unfold bind at 1. rewrite Hrun. auto. }
    all: destruct (N.eqb (c_state c) (Npos a) && Z.eqb s 0); try assumption.
    cbn [step_state previous_output].
    unfold quiet_call in Hq. repeat (apply andb_true_iff in Hq as [Hq ?]).
    destruct (c_ffb_in c) as [sx|sx| |sx mx ex]; try discriminate.
    apply output_decay; [|assumption].
    pose proof (rc_of_nonneg (cutoff_freq st) Hvc Hc) as Hrc.
    destruct (c_dt c) as [sd|sd| |[|] md ed]; try discriminate.
    destruct (alpha_of_range _ md ed Hrc ltac:(assumption)) as [E|(m0 & e0 & E & Hb & Hle)];
      [left; exact E|right; eauto].
Qed.

(** X9. Without input the output does not grow: if [previous_output] is a
    finite value [p >= 0] and [cutoff_freq > 0], then after any run of calls
    with input 0 and finite ticks [dt > 0] (failing calls and calls on other
    instances included) the stored output [p'] satisfies [0 <= p' <= p]. *)
Theorem output_decays_without_input
    (m : Mem) (a : positive) (st : PluginState) (cs : list Call) :
  heap m !! a = Some st ->
  forallb (call_ok m) cs = true ->
  forallb quiet_call cs = true ->
  F32.valid (cutoff_freq st) = true ->
  F32.ltb F32.zero (cutoff_freq st) = true ->
  F32.valid (previous_output st) = true ->
  F32.leb F32.zero (previous_output st) = true ->
  F32.is_finite (previous_output st) = true ->
  exists ss m' st',
    run_calls cs m = Some (ss, m')
    /\ heap m' !! a = Some st'
    /\ F32.leb F32.zero (previous_output st') = true
    /\ F32.leb (previous_output st') (previous_output st) = true.
Proof.
  intros Ha Hok Hquiet Hvc Hc Hvp Hp Hfp.
  destruct (run_quiet cs (value32 (previous_output st)) m a st Hok Hquiet Ha Hvc Hc)
    as (ss & m' & st' & Hrun & Ha' & Hbelow).
  { apply below32_self; assumption. }
  exists ss, m', st'. split; [assumption|]. split; [assumption|].
  apply below32_leb; assumption.
Qed.

Lemma output_decays_without_input_witness :
  exists ss m' st',
    run_calls [mkCall 7%N F32.zero F32.zero F32.zero dt_1ms 1%N;
               mkCall NULL F32.zero F32.zero F32.zero dt_1ms 1%N;
               mkCall 7%N F32.zero F32.zero F32.zero dt_1ms NULL;
               mkCall 7%N F32.zero F32.zero F32.zero dt_1ms 1%N]
              (mkMem {[ 7%positive := set_previous_output F32.one default_state ]}
                     {[ 1%positive := S754_nan ]} [])
    = Some (ss, m')
    /\ heap m' !! 7%positive = Some st'
    /\ F32.leb F32.zero (previous_output st') = true
    /\ F32.leb (previous_output st') F32.one = true.
Proof.
  exact (output_decays_without_input
           (mkMem {[ 7%positive := set_previous_output F32.one default_state ]}
                  {[ 1%positive := S754_nan ]} [])
           7 (set_previous_output F32.one default_state)
           [mkCall 7%N F32.zero F32.zero F32.zero dt_1ms 1%N;
            mkCall NULL F32.zero F32.zero F32.zero dt_1ms 1%N;
            mkCall 7%N F32.zero F32.zero F32.zero dt_1ms NULL;
            mkCall 7%N F32.zero F32.zero F32.zero dt_1ms 1%N]
           eq_refl eq_refl eq_refl eq_refl eq_refl eq_refl eq_refl eq_refl).
Defined.
